(** * Habit tracker: streak and adherence analytics

    A shallow embedding of [analytics.py], [habit.py] and the part of
    [habit_controller.py] / [manager.py] that reports the longest streak
    across habits, followed by the properties of the analytics core.

    Layout:
    - [Py]: the fragment of the Python runtime the code relies on
      (exceptions, [list.sort], [str.split], [int], [datetime.date],
      [date.strftime]);
    - [habit], [analytics], [manager], [habit_controller]: one module per
      source file, definitions named after the source functions;
    - [Spec]: the notions the design document uses to state the properties;
    - lemmas and theorems. *)

From stdpp Require Import gmap strings list sorting pretty.
From Stdlib Require Import ZArith Lia Ascii.

Local Open Scope string_scope.
Local Open Scope Z_scope.

(* ===================================================================== *)
(** * The Python runtime fragment *)
(* ===================================================================== *)

Module Py.

(** Exceptions the code can see. *)
Inductive exn : Type :=
  | ValueError (msg : string)
  | IndexError (msg : string)
  | KeyError (key : string)
  | HabitNotFoundError (msg : string)
  | ValidationError (msg : string).

(** A call either returns a value or raises. *)
Inductive result (A : Type) : Type :=
  | Ok (a : A)
  | Raise (e : exn).
Arguments Ok {A} a.
Arguments Raise {A} e.

#[export] Instance result_ret : MRet result := λ A a, Ok a.
#[export] Instance result_bind : MBind result := λ A B f m,
  match m with
  | Ok a => f a
  | Raise e => Raise e
  end.

(** ** [list.sort]

    [list.sort(key=..., reverse=...)] is a stable sort.  It is modelled by a
    stable insertion sort over a boolean "may stay in front of" test
    [le x y]: an element is put in front of the first element it may stay in
    front of, so elements that compare equal keep their input order.  With
    [reverse=True] the test is the reversed comparison, and equal elements
    still keep their input order, as the language reference requires. *)
Section list_sort.
Context {A : Type} (le : A → A → bool).

Fixpoint insort (x : A) (l : list A) : list A :=
  match l with
  | [] => [x]
  | y :: l' => if le x y then x :: y :: l' else y :: insort x l'
  end.

Definition sort (l : list A) : list A := foldr insort [] l.
End list_sort.

(** A [for] loop whose body may raise: the accumulator is threaded through
    the iterations and the first exception ends the loop. *)
Fixpoint for_each {A B} (f : B → A → result B) (acc : B) (l : list A)
    : result B :=
  match l with
  | [] => Ok acc
  | x :: l' => acc' ← f acc x; for_each f acc' l'
  end.

(** [d[k]] on a dictionary with string keys. *)
Definition dict_getitem {V} (d : gmap string V) (k : string) : result V :=
  match d !! k with
  | Some v => Ok v
  | None => Raise (KeyError k)
  end.

(** [sep.join(parts)]. *)
Fixpoint join (sep : string) (parts : list string) : string :=
  match parts with
  | [] => ""
  | [p] => p
  | p :: ps => p +:+ sep +:+ join sep ps
  end.

(** [l[i]] for a non-negative index. *)
Definition getitem {A} (l : list A) (i : nat) : result A :=
  match l !! i with
  | Some x => Ok x
  | None => Raise (IndexError "list index out of range")
  end.

(** ** [datetime.date] and [datetime.datetime]

    A [date] is represented by its proleptic Gregorian ordinal
    ([date.toordinal()]: day 1 is 0001-01-01).  Comparison of dates is
    comparison of ordinals, [(d1 - d2).days] is the difference of ordinals
    and [d - timedelta(days=n)] subtracts [n].  The valid dates are the
    ordinals of [date.min] .. [date.max]. *)
Abbreviation date := Z (only parsing).

Definition date_min : date := 1.
Definition date_max : date := 3652059.
Definition valid_date (d : date) : Prop := date_min ≤ d ≤ date_max.

#[export] Instance valid_date_dec d : Decision (valid_date d).
Proof. unfold valid_date. apply _. Defined.

(** A [datetime] is a date and a time of day (microseconds since midnight). *)
Record datetime : Type := Datetime { dt_date : date; dt_time : Z }.

(** [date.weekday()]: Monday is 0. *)
Definition weekday (d : date) : Z := (d + 6) `mod` 7.

(** Year and zero-based day of the year of an ordinal, after the standard
    library's [_ord2ymd]: 400-, 100-, 4- and 1-year cycles of 146097,
    36524, 1461 and 365 days. *)
Definition ord2year_yday (d : date) : Z * Z :=
  let n := d - 1 in
  let n400 := n `div` 146097 in
  let n := n `mod` 146097 in
  let year := n400 * 400 + 1 in
  let n100 := n `div` 36524 in
  let n := n `mod` 36524 in
  let n4 := n `div` 1461 in
  let n := n `mod` 1461 in
  let n1 := n `div` 365 in
  let n := n `mod` 365 in
  let year := year + n100 * 100 + n4 * 4 + n1 in
  if bool_decide (n1 = 4 ∨ n100 = 4) then (year - 1, 365) else (year, n).

Definition year (d : date) : Z := (ord2year_yday d).1.
Definition yday0 (d : date) : Z := (ord2year_yday d).2.

(** [%W]: week number of the year, Monday as the first day of the week;
    the days before the first Monday are in week 0. *)
Definition week_of_year (d : date) : Z := (yday0 d + 7 - weekday d) `div` 7.

(** Decimal digits. *)
Definition digit_char (n : Z) : ascii := ascii_of_nat (48 + Z.to_nat n).

Definition is_digit (c : ascii) : bool :=
  bool_decide (48 ≤ nat_of_ascii c ≤ 57)%nat.

Definition digit_val (c : ascii) : Z := Z.of_nat (nat_of_ascii c) - 48.

(** [zfill w n]: the [w] low decimal digits of [n], most significant first;
    for [0 ≤ n < 10^w] this is [n] in decimal, zero-padded to width [w]. *)
Fixpoint zfill (w : nat) (n : Z) : string :=
  match w with
  | O => ""
  | S w' => zfill w' (n `div` 10) +:+ String (digit_char (n `mod` 10)) ""
  end.

(** [d.strftime("%Y-%W")]: four-digit year, a dash, two-digit week number
    (the documented, zero-padded form of [%Y]; valid dates have years
    1..9999). *)
Definition strftime_Y_W (d : date) : string :=
  zfill 4 (year d) +:+ "-" +:+ zfill 2 (week_of_year d).

(** ** Strings *)

(** [s.split(sep)] for a one-character separator. *)
Fixpoint split (sep : ascii) (s : string) : list string :=
  match s with
  | "" => [""]
  | String c s' =>
      if decide (c = sep) then "" :: split sep s'
      else match split sep s' with
           | h :: t => String c h :: t
           | [] => [String c ""]
           end
  end.

(** [a, b = xs]: unpacking into exactly two targets. *)
Definition unpack2 {A} (xs : list A) : result (A * A) :=
  match xs with
  | [a; b] => Ok (a, b)
  | [] | [_] => Raise (ValueError "not enough values to unpack (expected 2)")
  | _ => Raise (ValueError "too many values to unpack (expected 2)")
  end.

(** [int(s)] on a string of decimal digits; anything else is a
    [ValueError] (signs, blanks and underscores do not occur in the keys
    the code parses). *)
Fixpoint int_digits (acc : Z) (s : string) : result Z :=
  match s with
  | "" => Ok acc
  | String c s' =>
      if is_digit c then int_digits (10 * acc + digit_val c) s'
      else Raise (ValueError "invalid literal for int() with base 10")
  end.

Definition int (s : string) : result Z :=
  match s with
  | "" => Raise (ValueError "invalid literal for int() with base 10")
  | _ => int_digits 0 s
  end.

(** [str(n)] of an integer, as used by f-strings. *)
Definition str_of_int (n : Z) : string := pretty n.

End Py.

Import Py.

(* ===================================================================== *)
(** * habit.py *)
(* ===================================================================== *)

Module habit.

Record Habit : Type := mkHabit {
  name : string;
  description : string;
  schedule : string;
  created_on : datetime
}.

(** [Habit.__init__]: the schedule is checked, everything else is stored. *)
Definition Habit_init (name description schedule : string)
    (created_on : datetime) : result Habit :=
  if bool_decide (schedule ≠ "daily" ∧ schedule ≠ "weekly") then
    Raise (ValueError "Schedule must be 'daily' or 'weekly'")
  else Ok (mkHabit name description schedule created_on).

End habit.

Import habit.

(* ===================================================================== *)
(** * analytics.py *)
(* ===================================================================== *)

Module analytics.

(** [list(set(just_dates))]: the distinct dates, in the order the set
    yields them (every use sorts the list next). *)
Definition unique (just_dates : list date) : list date :=
  elements (list_to_set just_dates : gset Z).

(** The keys of the [weeks] dictionary after
    [for date in unique_dates: weeks[date.strftime("%Y-%W")] = True]. *)
Definition group_by_week (unique_dates : list date) : gmap string bool :=
  foldl (λ weeks d, <[strftime_Y_W d := true]> weeks) ∅ unique_dates.

Definition keys (weeks : gmap string bool) : list string :=
  (map_to_list weeks).*1.

(** Daily branch of [calculate_streak],
    [for i in range(len(unique_dates) - 1)]: the loop over the remaining
    indices [idxs]; [break] leaves with the streak counted so far. *)
Fixpoint daily_streak_loop (unique_dates : list date) (idxs : list nat)
    (streak : Z) : result Z :=
  match idxs with
  | [] => Ok streak
  | i :: idxs' =>
      date1 ← getitem unique_dates i;
      date2 ← getitem unique_dates (i + 1);
      if decide (date1 - date2 = 1)
      then daily_streak_loop unique_dates idxs' (streak + 1)
      else Ok streak
  end.

(** Weekly branch of [calculate_streak],
    [for i in range(len(week_list) - 1)].  [and] evaluates [int(...)] only
    when the years are equal. *)
Fixpoint weekly_streak_loop (week_list : list string) (idxs : list nat)
    (streak : Z) : result Z :=
  match idxs with
  | [] => Ok streak
  | i :: idxs' =>
      week1 ← getitem week_list i;
      week2 ← getitem week_list (i + 1);
      '(year1, weeknum1) ← unpack2 (split "-" week1);
      '(year2, weeknum2) ← unpack2 (split "-" week2);
      if decide (year1 = year2) then
        w1 ← int weeknum1;
        w2 ← int weeknum2;
        if decide (w1 - w2 = 1)
        then weekly_streak_loop week_list idxs' (streak + 1)
        else Ok streak
      else Ok streak
  end.

(** [calculate_streak(dates, schedule)]; [today] is the value of
    [datetime.date.today()] at the call. *)
Definition calculate_streak (today : date) (dates : list datetime)
    (schedule : string) : result Z :=
  if decide (length dates = 0%nat) then Ok 0 else
  let just_dates := dt_date <$> dates in
  let unique_dates := unique just_dates in
  let unique_dates := sort (λ a b, bool_decide (b ≤ a)) unique_dates in
  if decide (schedule = "daily") then
    let yesterday := today - 1 in
    newest ← getitem unique_dates 0;
    if decide (newest < yesterday) then Ok 0 else
    daily_streak_loop unique_dates (seq 0 (length unique_dates - 1)) 1
  else
    newest ← getitem unique_dates 0;
    if decide (today - newest > 7) then Ok 0 else
    let weeks := group_by_week unique_dates in
    let week_list := keys weeks in
    let week_list := sort (λ a b, String.leb b a) week_list in
    weekly_streak_loop week_list (seq 0 (length week_list - 1)) 1.

Definition get_current_streak_for_habit (today : date) (habit : Habit)
    (completions : list datetime) : result Z :=
  calculate_streak today completions (schedule habit).

(** Daily branch of [get_longest_streak_for_habit],
    [for i in range(1, len(unique_dates))]. *)
Fixpoint daily_longest_loop (unique_dates : list date) (idxs : list nat)
    (longest current : Z) : result Z :=
  match idxs with
  | [] => Ok longest
  | i :: idxs' =>
      d ← getitem unique_dates i;
      d' ← getitem unique_dates (i - 1);
      if decide (d - d' = 1) then
        let current := current + 1 in
        let longest := if decide (current > longest) then current else longest in
        daily_longest_loop unique_dates idxs' longest current
      else daily_longest_loop unique_dates idxs' longest 1
  end.

(** Weekly branch of [get_longest_streak_for_habit],
    [for i in range(1, len(week_list))]. *)
Fixpoint weekly_longest_loop (week_list : list string) (idxs : list nat)
    (longest current : Z) : result Z :=
  match idxs with
  | [] => Ok longest
  | i :: idxs' =>
      k1 ← getitem week_list (i - 1);
      '(year1, week1) ← unpack2 (split "-" k1);
      k2 ← getitem week_list i;
      '(year2, week2) ← unpack2 (split "-" k2);
      if decide (year1 = year2) then
        w2 ← int week2;
        w1 ← int week1;
        if decide (w2 - w1 = 1) then
          let current := current + 1 in
          let longest := if decide (current > longest) then current else longest in
          weekly_longest_loop week_list idxs' longest current
        else weekly_longest_loop week_list idxs' longest 1
      else weekly_longest_loop week_list idxs' longest 1
  end.

Definition get_longest_streak_for_habit (habit : Habit)
    (completions : list datetime) : result Z :=
  if decide (length completions = 0%nat) then Ok 0 else
  let just_dates := dt_date <$> completions in
  let unique_dates := unique just_dates in
  let unique_dates := sort (λ a b, bool_decide (a ≤ b)) unique_dates in
  if decide (length unique_dates = 1%nat) then Ok 1 else
  if decide (schedule habit = "daily") then
    daily_longest_loop unique_dates (seq 1 (length unique_dates - 1)) 1 1
  else
    let weeks := group_by_week unique_dates in
    let week_list := keys weeks in
    let week_list := sort String.leb week_list in
    if decide (length week_list = 1%nat) then Ok 1 else
    weekly_longest_loop week_list (seq 1 (length week_list - 1)) 1 1.

(** [get_habits_by_periodicity(habits, schedule)]: the lines printed and
    the outcome of the call. *)
Definition get_habits_by_periodicity (habits : list Habit)
    (schedule : string) : list string * result (list Habit) :=
  if decide (schedule ≠ "daily" ∧ schedule ≠ "weekly") then
    (["Warning: Invalid schedule " +:+ schedule], Ok [])
  else
    ([], Ok (foldl (λ matching h,
                      if decide (habit.schedule h = schedule)
                      then (matching ++ [h])%list else matching) [] habits)).

(** [find_struggling_habits(habits, all_completions, period_start,
    period_end)]; [None] for an argument left out. *)
Definition find_struggling_habits (today : date) (habits : list Habit)
    (all_completions : gmap string (list datetime))
    (period_start period_end : option date) : list (string * Z) :=
  if decide (length habits = 0%nat) then [] else
  let period_end := match period_end with None => today | Some e => e end in
  let period_start :=
    match period_start with None => period_end - 30 | Some s => s end in
  let results :=
    foldl (λ results habit,
      let comp_list := default [] (all_completions !! name habit) in
      let completions_in_range :=
        foldl (λ n c,
                 let c_date := dt_date c in
                 if decide (c_date >= period_start ∧ c_date <= period_end)
                 then n + 1 else n) 0 comp_list in
      let days_in_period := (period_end - period_start) + 1 in
      let expected :=
        if decide (schedule habit = "daily") then days_in_period
        else days_in_period `div` 7 + 1 in
      let missed := expected - completions_in_range in
      let missed := if decide (missed < 0) then 0 else missed in
      (results ++ [(name habit, missed)])%list) [] habits in
  sort (λ x y, bool_decide (y.2 ≤ x.2)) results.

End analytics.

Import analytics.

(* ===================================================================== *)
(** * manager.py over the storage collaborator *)
(* ===================================================================== *)

Module manager.

(** The two tables of [database.py], as the queries return them: the rows
    of [habits] in the order of [SELECT * FROM habits ORDER BY created_on
    DESC], the rows of [completions] as (habit_name, completion_time) in
    the order of [ORDER BY completion_time DESC].  Connection and query
    failures of the storage layer are outside the model. *)
Record database : Type := mkDatabase {
  habits_table : list Habit;
  completions_table : list (string * datetime)
}.

(** What [add_habit_db] checks before a row is inserted: every stored
    schedule is daily or weekly. *)
Definition wf_database (db : database) : Prop :=
  Forall (λ row, schedule row = "daily" ∨ schedule row = "weekly")
    (habits_table db).

(** [get_habit_db]: [SELECT * FROM habits WHERE name = ?], [fetchone]. *)
Definition get_habit_db (db : database) (name : string) : option Habit :=
  List.find (λ row, bool_decide (habit.name row = name)) (habits_table db).

Definition get_all_habits_db (db : database) : list Habit := habits_table db.

(** [get_completions_db]: the completion times of the rows of a habit. *)
Definition get_completions_db (db : database) (habit_name : string)
    : list datetime :=
  (List.filter (λ row, bool_decide (row.1 = habit_name))
     (completions_table db)).*2.

(** [DataManager.get_habit]: the row is turned into a [Habit] object. *)
Definition get_habit (db : database) (name : string) : result (option Habit) :=
  match get_habit_db db name with
  | Some data =>
      h ← Habit_init (habit.name data) (description data) (schedule data)
            (created_on data);
      Ok (Some h)
  | None => Ok None
  end.

(** [DataManager.get_all_habits]. *)
Definition get_all_habits (db : database) : result (list Habit) :=
  for_each (λ habits row,
              h ← Habit_init (habit.name row) (description row) (schedule row)
                    (created_on row);
              Ok (habits ++ [h])%list) [] (get_all_habits_db db).

(** [DataManager.get_completions]. *)
Definition get_completions (db : database) (habit_name : string)
    : result (list datetime) :=
  h ← get_habit db habit_name;
  match h with
  | None =>
      Raise (HabitNotFoundError ("Habit '" +:+ habit_name +:+ "' not found"))
  | Some _ => Ok (get_completions_db db habit_name)
  end.

End manager.

(* ===================================================================== *)
(** * habit_controller.py *)
(* ===================================================================== *)

Module habit_controller.
Import manager.

(** A row of [habit_streaks]: (name, streak, schedule). *)
Abbreviation streak_row := (string * Z * string)%type (only parsing).

(** Lines 152-155: the maximum streak value, starting from 0. *)
Definition max_streak_of (habit_streaks : list streak_row) : Z :=
  foldl (λ max_streak '(_, streak, _),
           if decide (streak > max_streak) then streak else max_streak)
        0 habit_streaks.

(** Lines 159-162: all habits with the maximum streak. *)
Definition best_habits_of (habit_streaks : list streak_row) (max_streak : Z)
    : list streak_row :=
  foldl (λ best_habits '(name, streak, schedule),
           if decide (streak = max_streak)
           then (best_habits ++ [(name, streak, schedule)])%list
           else best_habits)
        [] habit_streaks.

(** Lines 165-173: the text shown for the winners. *)
Definition format_longest (best_habits : list streak_row) (max_streak : Z)
    : result string :=
  if decide (length best_habits = 1%nat) then
    '(name, streak, schedule) ← getitem best_habits 0;
    Ok ("Longest streak: " +:+ name +:+ " (" +:+ schedule +:+ ") with "
        +:+ str_of_int streak +:+ " consecutive completions")
  else
    let habit_list :=
      join ", " ((λ '(name, _, schedule), name +:+ " (" +:+ schedule +:+ ")")
                   <$> best_habits) in
    Ok ("Longest streak: " +:+ str_of_int max_streak
        +:+ " completions, shared by: " +:+ habit_list).

(** Lines 132-144: the completions of every habit, then its longest
    streak. *)
Definition collect_completions (db : database) (all_habits : list Habit)
    : result (gmap string (list datetime)) :=
  for_each (λ all_completions habit,
              completions ← get_completions db (name habit);
              Ok (<[name habit := completions]> all_completions))
           ∅ all_habits.

Definition collect_streaks (all_habits : list Habit)
    (all_completions : gmap string (list datetime))
    : result (list streak_row) :=
  for_each (λ habit_streaks habit,
              completions ← dict_getitem all_completions (name habit);
              streak ← get_longest_streak_for_habit habit completions;
              Ok (habit_streaks ++ [(name habit, streak, schedule habit)])%list)
           [] all_habits.

(** [HabitController.view_longest_streak_all]. *)
Definition view_longest_streak_all (db : database) : result string :=
  all_habits ← get_all_habits db;
  if decide (length all_habits = 0%nat) then
    Ok "No habits defined to calculate streaks."
  else
    all_completions ← collect_completions db all_habits;
    habit_streaks ← collect_streaks all_habits all_completions;
    if decide (length habit_streaks = 0%nat) then
      Ok "No streaks to report."
    else
      let max_streak := max_streak_of habit_streaks in
      let best_habits := best_habits_of habit_streaks max_streak in
      format_longest best_habits max_streak.

End habit_controller.

Import manager habit_controller.

(* ===================================================================== *)
(** * The notions of the design document *)
(* ===================================================================== *)

Module Spec.

(** Cadence of a habit. *)
Inductive cadence : Type := Daily | Weekly.

Definition cadence_of (schedule : string) : option cadence :=
  if decide (schedule = "daily") then Some Daily
  else if decide (schedule = "weekly") then Some Weekly
  else None.

(** The completion dates of a habit. *)
Definition completion_dates (completions : list datetime) : list date :=
  dt_date <$> completions.

(** [u] is the calendar date set of [completions], most recent first:
    strictly decreasing, hence without duplicates, with exactly the
    completion dates as elements. *)
Definition dates_desc (completions : list datetime) (u : list date) : Prop :=
  StronglySorted (λ a b, b < a) u ∧
  ∀ d, d ∈ u ↔ d ∈ completion_dates completions.

(** The (year, week-number) bucket of a date. *)
Definition bucket (d : date) : Z * Z := (year d, week_of_year d).

(** [p] is a later bucket than [q]. *)
Definition bucket_newer (p q : Z * Z) : Prop :=
  q.1 < p.1 ∨ (q.1 = p.1 ∧ q.2 < p.2).

#[export] Instance bucket_newer_dec p q : Decision (bucket_newer p q).
Proof. unfold bucket_newer. apply _. Defined.

(** [b] is the deduplicated list of buckets of [completions], newest
    first. *)
Definition buckets_desc (completions : list datetime) (b : list (Z * Z))
    : Prop :=
  StronglySorted bucket_newer b ∧
  ∀ p, p ∈ b ↔ ∃ d, d ∈ completion_dates completions ∧ p = bucket d.

(** Two adjacent dates, newest first, are one calendar day apart. *)
Definition day_step (newer older : date) : Prop := newer - older = 1.

#[export] Instance day_step_dec newer older : Decision (day_step newer older).
Proof. unfold day_step. apply _. Defined.

(** Two adjacent buckets, newest first, are in the same year and their week
    numbers differ by exactly 1. *)
Definition week_step (newer older : Z * Z) : Prop :=
  newer.1 = older.1 ∧ newer.2 - older.2 = 1.

#[export] Instance week_step_dec newer older :
  Decision (week_step newer older).
Proof. unfold week_step. apply _. Defined.

(** [k] is the number of consecutive pairs of [l], from the front, that
    satisfy [step] before the first gap: the first [k] adjacent pairs
    satisfy it, and the next pair, if there is one, does not. *)
Definition leading_run {A} (step : A → A → Prop) (l : list A) (k : nat)
    : Prop :=
  (k < length l)%nat ∧
  (∀ i a b, (i < k)%nat → l !! i = Some a → l !! S i = Some b → step a b) ∧
  (∀ a b, l !! k = Some a → l !! S k = Some b → ¬ step a b).

(** ** Adherence *)

(** The window is inclusive on both ends. *)
Definition days_in_window (window_start window_end : date) : Z :=
  window_end - window_start + 1.

Definition in_window (window_start window_end : date) (c : datetime) : Prop :=
  window_start ≤ dt_date c ≤ window_end.

#[export] Instance in_window_dec ws we c : Decision (in_window ws we c).
Proof. unfold in_window. apply _. Defined.

(** Completions whose date lies in the window. *)
Definition actual (window_start window_end : date)
    (completions : list datetime) : Z :=
  Z.of_nat (length (filter (in_window window_start window_end) completions)).

Definition expected (c : cadence) (window_start window_end : date) : Z :=
  match c with
  | Daily => days_in_window window_start window_end
  | Weekly => days_in_window window_start window_end `div` 7 + 1
  end.

Definition missed (c : cadence) (window_start window_end : date)
    (completions : list datetime) : Z :=
  Z.max 0 (expected c window_start window_end
           - actual window_start window_end completions).

(** The completions recorded for a habit name; none when the name has no
    entry. *)
Definition completions_of (completions_by_habit : gmap string (list datetime))
    (habit_name : string) : list datetime :=
  default [] (completions_by_habit !! habit_name).

(** The report is ordered by missed count, largest first. *)
Definition missed_desc (p q : string * Z) : Prop := q.2 ≤ p.2.

End Spec.

Import Spec.

(* ===================================================================== *)
(** * Structural forms of the loops *)
(* ===================================================================== *)

Module Loops.

Section run.
Context {A : Type} (step : A → A → Prop) `{∀ a b, Decision (step a b)}.

(** A streak loop with [break], on the list itself: walk the adjacent
    pairs from the front while they satisfy [step]. *)
Fixpoint run_from (l : list A) (streak : Z) : Z :=
  match l with
  | a :: tl =>
      match tl with
      | b :: _ => if decide (step a b) then run_from tl (streak + 1) else streak
      | [] => streak
      end
  | [] => streak
  end.

(** One iteration of a longest-streak loop on the state
    (longest, current) and the pair (previous, next). *)
Definition longest_step (st : Z * Z) (p : A * A) : Z * Z :=
  if decide (step p.2 p.1) then
    let current := st.2 + 1 in
    (if decide (current > st.1) then current else st.1, current)
  else (st.1, 1).
End run.

(** The adjacent pairs (l[i], l[i+1]) of a list. *)
Definition adjacent {A} (l : list A) : list (A * A) := zip l (tail l).

Definition longest_scan {A} (step : A → A → Prop)
    `{∀ a b, Decision (step a b)} (l : list A) : Z * Z :=
  foldl (longest_step step) (1, 1) (adjacent l).

(** The text of a bucket as [strftime] writes it. *)
Definition bucket_key (p : Z * Z) : string :=
  zfill 4 p.1 +:+ "-" +:+ zfill 2 p.2.

(** Buckets that [%Y-%W] writes in four and two digits. *)
Definition valid_bucket (p : Z * Z) : Prop :=
  0 ≤ p.1 < 10000 ∧ 0 ≤ p.2 < 100.


(** [p] is the same bucket as [q] or a later one. *)
Definition bucket_ge (p q : Z * Z) : Prop :=
  q.1 < p.1 ∨ (q.1 = p.1 ∧ q.2 ≤ p.2).

(** The same, as a test. *)
Definition bucket_geb (p q : Z * Z) : bool :=
  bool_decide (q.1 < p.1 ∨ (q.1 = p.1 ∧ q.2 ≤ p.2)).

(** Lines 190-193 of [find_struggling_habits]: the window
    (period_start, period_end) after the defaults are filled in. *)
Definition period_window (today : date) (period_start period_end : option date)
    : date * date :=
  let period_end := match period_end with None => today | Some e => e end in
  let period_start :=
    match period_start with None => period_end - 30 | Some s => s end in
  (period_start, period_end).

(** The expected count the loop body computes from the schedule text. *)
Definition expected_of_schedule (schedule : string) (days_in_period : Z) : Z :=
  if decide (schedule = "daily") then days_in_period
  else days_in_period `div` 7 + 1.

(** The row the loop body of [find_struggling_habits] appends for a
    habit. *)
Definition row_of (period_start period_end : date)
    (all_completions : gmap string (list datetime)) (h : Habit) : string * Z :=
  (name h,
   Z.max 0 (expected_of_schedule (schedule h)
              (days_in_window period_start period_end)
            - actual period_start period_end
                (completions_of all_completions (name h)))).

End Loops.

Import Loops.

(* ===================================================================== *)
(** * Runs of adjacent elements *)
(* ===================================================================== *)

Module Runs.

(** In the list [r], taken oldest first, every element is one [step] after
    the element before it. *)
Definition chain {A} (step : A → A → Prop) (r : list A) : Prop :=
  ∀ i a b, r !! i = Some a → r !! S i = Some b → step b a.

(** [r] is a block of adjacent elements of [l]. *)
Definition block {A} (r l : list A) : Prop :=
  ∃ pre suf, l = (pre ++ r ++ suf)%list.

End Runs.

Import Runs.

(* ===================================================================== *)
(** * Properties of the runtime fragment *)
(* ===================================================================== *)

Local Open Scope list_scope.

(** ** [sort] *)

Section sort_facts.
Context {A : Type} (le : A → A → bool).

Lemma insort_Permutation x l : insort le x l ≡ₚ x :: l.
Proof.
  induction l as [|y l IH]; simpl; [done|].
  destruct (le x y); [done|].
  rewrite IH. apply Permutation_swap.
Qed.

Lemma sort_Permutation l : sort le l ≡ₚ l.
Proof.
  induction l as [|x l IH]; simpl; [done|].
  unfold sort in IH. by rewrite insort_Permutation, IH.
Qed.

Lemma sort_length l : length (sort le l) = length l.
Proof. by rewrite sort_Permutation. Qed.

Lemma elem_of_sort x l : x ∈ sort le l ↔ x ∈ l.
Proof. by rewrite sort_Permutation. Qed.

Lemma sort_NoDup l : NoDup l → NoDup (sort le l).
Proof. by rewrite sort_Permutation. Qed.

(** Sortedness needs the comparison to be total. *)
Hypothesis le_total : ∀ x y, le x y = false → le y x = true.

Lemma insort_HdRel z x l :
  le z x = true → HdRel (λ a b, le a b = true) z l →
  HdRel (λ a b, le a b = true) z (insort le x l).
Proof.
  intros Hzx Hz. destruct l as [|y l]; simpl; [by constructor|].
  destruct (le x y); constructor; [done|]. by inversion Hz.
Qed.

Lemma insort_Sorted x l :
  Sorted (λ a b, le a b = true) l →
  Sorted (λ a b, le a b = true) (insort le x l).
Proof.
  induction 1 as [|y l Hl IH Hy]; simpl; [by repeat constructor|].
  destruct (le x y) eqn:Hxy.
  - repeat constructor; done.
  - constructor; [done|]. apply insort_HdRel; auto.
Qed.

Lemma sort_Sorted l : Sorted (λ a b, le a b = true) (sort le l).
Proof.
  induction l as [|x l IH]; simpl; [constructor|]. by apply insort_Sorted.
Qed.
End sort_facts.



(** Sorting commutes with a map that preserves the comparison. *)
Lemma insort_fmap {A B} (f : A → B) (leA : A → A → bool)
    (leB : B → B → bool) x l :
  (∀ y, y ∈ l → leB (f x) (f y) = leA x y) →
  insort leB (f x) (f <$> l) = f <$> insort leA x l.
Proof.
  induction l as [|y l IH]; intros Hle; simpl; [done|].
  rewrite Hle by left. destruct (leA x y); [done|].
  simpl. f_equal. apply IH. intros z Hz. apply Hle. by right.
Qed.

Lemma sort_fmap {A B} (f : A → B) (leA : A → A → bool)
    (leB : B → B → bool) l :
  (∀ x y, x ∈ l → y ∈ l → leB (f x) (f y) = leA x y) →
  sort leB (f <$> l) = f <$> sort leA l.
Proof.
  induction l as [|x l IH]; intros Hle; [done|].
  change (insort leB (f x) (sort leB (f <$> l)) = f <$> insort leA x (sort leA l)).
  rewrite IH.
  - apply insort_fmap. intros y Hy. apply Hle; [left|right].
    by rewrite elem_of_sort in Hy.
  - intros y z Hy Hz. apply Hle; by right.
Qed.

Lemma Sorted_weaken {A} (R1 R2 : relation A) l :
  (∀ x y, R1 x y → R2 x y) → Sorted R1 l → Sorted R2 l.
Proof.
  intros HR. induction 1 as [|x l _ IH Hx]; constructor; [done|].
  destruct Hx; constructor; auto.
Qed.

Lemma StronglySorted_weaken {A} (R1 R2 : relation A) l :
  (∀ x y, R1 x y → R2 x y) → StronglySorted R1 l → StronglySorted R2 l.
Proof.
  intros HR. induction 1 as [|x l _ IH Hx]; constructor; [done|].
  eapply Forall_impl; eauto.
Qed.

Lemma StronglySorted_NoDup {A} (R : relation A) `{!Irreflexive R} l :
  StronglySorted R l → NoDup l.
Proof.
  induction 1 as [|x l _ IH Hx]; constructor; [|done].
  intros Hin. rewrite Forall_forall in Hx.
  by apply (irreflexivity R x), Hx.
Qed.

Lemma StronglySorted_reverse {A} (R : relation A) l :
  StronglySorted R l → StronglySorted (flip R) (reverse l).
Proof.
  induction 1 as [|x l _ IH Hx]; [constructor|].
  rewrite reverse_cons. apply StronglySorted_app_2; [|done|repeat constructor].
  intros a b Ha Hb. apply list_elem_of_singleton in Hb as ->.
  rewrite elem_of_reverse in Ha. rewrite Forall_forall in Hx. by apply Hx.
Qed.

(** A sorted list without duplicates is strictly sorted. *)
Lemma StronglySorted_strict {A} (R S : relation A) l :
  (∀ x y, R x y → x ≠ y → S x y) →
  StronglySorted R l → NoDup l → StronglySorted S l.
Proof.
  intros HRS. induction 1 as [|x l Hl IH Hx]; intros Hnd; constructor.
  - apply IH. by apply NoDup_cons in Hnd as [_ ?].
  - apply NoDup_cons in Hnd as [Hnotin _].
    rewrite Forall_forall in Hx |- *. intros y Hy.
    apply HRS; [by apply Hx|]. by intros ->.
Qed.

(** The sort of a list is the only sorted arrangement of its elements. *)
Lemma sort_unique {A} (le : A → A → bool) (R : relation A)
    `{!Transitive R, !AntiSymm (=) R} l u :
  (∀ x y, le x y = true → R x y) →
  (∀ x y, le x y = false → le y x = true) →
  StronglySorted R u → l ≡ₚ u → sort le l = u.
Proof.
  intros HleR Htot Hu Hperm.
  apply (StronglySorted_unique R); [|done|by rewrite sort_Permutation].
  apply Sorted_StronglySorted; [done|].
  eapply Sorted_weaken; [|by apply sort_Sorted]. done.
Qed.

(** ** [list(set(...))] *)

Lemma unique_NoDup ds : NoDup (unique ds).
Proof. unfold unique. apply NoDup_elements. Qed.

Lemma elem_of_unique d ds : d ∈ unique ds ↔ d ∈ ds.
Proof. unfold unique. by rewrite elem_of_elements, elem_of_list_to_set. Qed.

Lemma unique_nonempty ds : ds ≠ [] → unique ds ≠ [].
Proof.
  destruct ds as [|d ds]; [done|]. intros _ Hnil.
  assert (d ∈ unique (d :: ds)) as Hd by (apply elem_of_unique; left).
  rewrite Hnil in Hd. by apply elem_of_nil in Hd.
Qed.

(** A completion on a date that is already present adds nothing to the
    set of dates. *)
Lemma unique_app_dup ds d : d ∈ ds → unique (ds ++ [d]) = unique ds.
Proof.
  intros Hd. unfold unique. f_equal. apply set_eq. intros x.
  rewrite !elem_of_list_to_set, elem_of_app, list_elem_of_singleton.
  split; [intros [?| ->]; done | by left].
Qed.

#[local] Instance Z_ge_trans : Transitive (λ a b : Z, b ≤ a).
Proof. intros a b c ? ?. lia. Qed.
#[local] Instance Z_ge_antisym : AntiSymm (=) (λ a b : Z, b ≤ a).
Proof. intros a b ? ?. lia. Qed.
#[local] Instance Z_gt_irrefl : Irreflexive (λ a b : Z, b < a).
Proof. intros a ?. lia. Qed.

(** The code's [unique_dates] after [sort(reverse=True)] is the calendar
    date set, most recent first. *)
Lemma unique_dates_desc completions u :
  dates_desc completions u →
  sort (λ a b, bool_decide (b ≤ a)) (unique (dt_date <$> completions)) = u.
Proof.
  intros [Hsorted Hel].
  apply (sort_unique _ (λ a b, b ≤ a)).
  - intros x y. by rewrite bool_decide_eq_true.
  - intros x y. rewrite bool_decide_eq_false, bool_decide_eq_true. lia.
  - eapply StronglySorted_weaken; [|done]. simpl. lia.
  - apply NoDup_Permutation.
    + apply unique_NoDup.
    + by apply (StronglySorted_NoDup (λ a b, b < a)).
    + intros d. by rewrite elem_of_unique, Hel.
Qed.

(** After [sort()] it is the same list, oldest first. *)
Lemma unique_dates_asc completions u :
  dates_desc completions u →
  sort (λ a b, bool_decide (a ≤ b)) (unique (dt_date <$> completions))
  = reverse u.
Proof.
  intros [Hsorted Hel].
  apply (sort_unique _ (λ a b, a ≤ b)).
  - intros x y. by rewrite bool_decide_eq_true.
  - intros x y. rewrite bool_decide_eq_false, bool_decide_eq_true. lia.
  - apply StronglySorted_reverse in Hsorted.
    eapply StronglySorted_weaken; [|done]. unfold flip. lia.
  - rewrite reverse_Permutation. apply NoDup_Permutation.
    + apply unique_NoDup.
    + by apply (StronglySorted_NoDup (λ a b, b < a)).
    + intros d. by rewrite elem_of_unique, Hel.
Qed.

(** Every completion list has a calendar date set. *)
Lemma dates_desc_exists completions : ∃ u, dates_desc completions u.
Proof.
  exists (sort (λ a b, bool_decide (b ≤ a)) (unique (dt_date <$> completions))).
  split.
  - apply (StronglySorted_strict (λ a b : Z, b ≤ a)).
    + intros x y. lia.
    + apply Sorted_StronglySorted; [apply _|].
      eapply Sorted_weaken; [|apply sort_Sorted].
      * intros x y. by rewrite bool_decide_eq_true.
      * intros x y. rewrite bool_decide_eq_false, bool_decide_eq_true. lia.
    + apply sort_NoDup, unique_NoDup.
  - intros d. by rewrite elem_of_sort, elem_of_unique.
Qed.

(** ** Indexing *)

Lemma getitem_Some {A} (l : list A) i x : l !! i = Some x → getitem l i = Ok x.
Proof. unfold getitem. by intros ->. Qed.

Lemma getitem_middle {A} (pre : list A) x l :
  getitem (pre ++ x :: l) (length pre) = Ok x.
Proof. apply getitem_Some, list_lookup_middle. done. Qed.

Lemma getitem_middle_next {A} (pre : list A) x y l :
  getitem (pre ++ x :: y :: l) (length pre + 1) = Ok y.
Proof.
  apply getitem_Some. rewrite lookup_app_r by lia.
  by replace (length pre + 1 - length pre)%nat with 1%nat by lia.
Qed.

(* ===================================================================== *)
(** * Current streak, daily cadence *)
(* ===================================================================== *)

Lemma run_from_cons {A} (step : A → A → Prop)
    `{∀ a b, Decision (step a b)} a b l streak :
  run_from step (a :: b :: l) streak
  = if decide (step a b) then run_from step (b :: l) (streak + 1) else streak.
Proof. done. Qed.

(** The indexed loop of the daily branch is the walk over the list. *)
Lemma daily_streak_loop_run pre l streak :
  daily_streak_loop (pre ++ l) (seq (length pre) (length l - 1)) streak
  = Ok (run_from day_step l streak).
Proof.
  revert pre streak. induction l as [|a l IH]; intros pre streak; [done|].
  destruct l as [|b l]; [done|].
  replace (length (a :: b :: l) - 1)%nat with (S (length l)) by (simpl; lia).
  cbn [seq daily_streak_loop].
  rewrite getitem_middle, getitem_middle_next. cbn [mbind result_bind].
  rewrite run_from_cons.
  destruct (decide (a - b = 1)) as [Hab|Hab].
  - rewrite decide_True by done.
    specialize (IH (pre ++ [a]) (streak + 1)).
    rewrite <- app_assoc, length_app in IH. simpl in IH.
    replace (length pre + 1)%nat with (S (length pre)) in IH by lia.
    replace (length l - 0)%nat with (length l) in IH by lia.
    exact IH.
  - by rewrite decide_False by done.
Qed.

(** The walk counts the leading run. *)
Lemma run_from_leading_run {A} (step : A → A → Prop)
    `{∀ a b, Decision (step a b)} l streak :
  l ≠ [] →
  ∃ k : nat, run_from step l streak = streak + Z.of_nat k ∧
             leading_run step l k.
Proof.
  revert streak. induction l as [|a l IH]; intros streak Hne; [done|].
  destruct l as [|b l].
  { exists 0%nat. split; [simpl; lia|]. repeat split; simpl; [lia|lia|done]. }
  rewrite run_from_cons. destruct (decide (step a b)) as [Hab|Hab].
  - destruct (IH (streak + 1)) as (k & Hk & Hlen & Hrun & Hstop); [done|].
    exists (S k). split; [rewrite Hk; lia|]. repeat split.
    + simpl in *. lia.
    + intros [|i] x y Hi Hx Hy; simplify_eq/=; [done|].
      apply (Hrun i); [lia|done..].
    + intros x y Hx Hy. by apply Hstop.
  - exists 0%nat. split; [lia|]. repeat split; [simpl; lia|lia|].
    intros x y ??; by simplify_eq/=.
Qed.

(** The length of a leading run is unique. *)
Lemma leading_run_unique {A} (step : A → A → Prop) (l : list A) k1 k2 :
  leading_run step l k1 → leading_run step l k2 → k1 = k2.
Proof.
  intros (Hl1 & Hr1 & Hs1) (Hl2 & Hr2 & Hs2).
  destruct (lt_eq_lt_dec k1 k2) as [[Hlt| ->]|Hlt]; [|done|].
  - destruct (lookup_lt_is_Some_2 l k1) as [a Ha]; [lia|].
    destruct (lookup_lt_is_Some_2 l (S k1)) as [b Hb]; [lia|].
    destruct (Hs1 a b Ha Hb). by apply (Hr2 k1).
  - destruct (lookup_lt_is_Some_2 l k2) as [a Ha]; [lia|].
    destruct (lookup_lt_is_Some_2 l (S k2)) as [b Hb]; [lia|].
    destruct (Hs2 a b Ha Hb). by apply (Hr1 k2).
Qed.

Lemma dates_desc_nonempty completions u :
  dates_desc completions u → u ≠ [] → length completions ≠ 0%nat.
Proof.
  intros [_ Hel] Hu Hlen. destruct u as [|d u]; [done|].
  apply nil_length_inv in Hlen as ->.
  assert (d ∈ completion_dates []) as Hd by (apply Hel; left).
  by apply elem_of_nil in Hd.
Qed.

(** The daily branch, in terms of the calendar date set. *)
Lemma calculate_streak_daily today completions newest rest :
  dates_desc completions (newest :: rest) →
  calculate_streak today completions "daily"
  = if decide (newest < today - 1) then Ok 0
    else Ok (run_from day_step (newest :: rest) 1).
Proof.
  intros Hu. unfold calculate_streak.
  rewrite decide_False by (by eapply dates_desc_nonempty).
  rewrite (unique_dates_desc _ _ Hu). rewrite decide_True by done.
  cbn [getitem lookup list_lookup mbind result_bind].
  destruct (decide (newest < today - 1)); [done|].
  apply (daily_streak_loop_run [] (newest :: rest) 1).
Qed.

(** C3. Daily cadence, current streak: with the completion dates taken
    most recent first, the streak is 0 when the most recent date is
    strictly older than yesterday; otherwise it is 1 plus the number of
    consecutive newest-to-oldest pairs that are exactly one calendar day
    apart before the first gap. *)
Theorem daily_current_streak today habit completions newest rest :
  schedule habit = "daily" →
  dates_desc completions (newest :: rest) →
  (newest < today - 1 →
     get_current_streak_for_habit today habit completions = Ok 0) ∧
  (today - 1 ≤ newest →
     ∃ k : nat,
       get_current_streak_for_habit today habit completions
       = Ok (1 + Z.of_nat k) ∧
       leading_run day_step (newest :: rest) k).
Proof.
  intros Hdaily Hu. unfold get_current_streak_for_habit. rewrite Hdaily.
  rewrite (calculate_streak_daily _ _ _ _ Hu). split; intros Hnew.
  - by rewrite decide_True.
  - rewrite decide_False by lia.
    destruct (run_from_leading_run day_step (newest :: rest) 1)
      as (k & Hk & Hrun); [done|].
    exists k. by rewrite Hk.
Qed.

Lemma daily_current_streak_witness :
  let habit := mkHabit "Read" "" "daily" (Datetime 90 0) in
  let completions :=
    [Datetime 100 0; Datetime 98 7; Datetime 99 0; Datetime 98 0;
     Datetime 95 0] in
  schedule habit = "daily" ∧
  dates_desc completions [100; 99; 98; 95] ∧
  (100 - 1 ≤ 100 ∧
   ∃ k : nat,
     get_current_streak_for_habit 100 habit completions
     = Ok (1 + Z.of_nat k) ∧
     leading_run day_step [100; 99; 98; 95] k) ∧
  (100 < 102 - 1 ∧
   get_current_streak_for_habit 102 habit completions = Ok 0).
Proof.
  intros habit completions.
  assert (schedule habit = "daily") as Hdaily by reflexivity.
  assert (dates_desc completions [100; 99; 98; 95]) as Hu.
  { split.
    - repeat constructor; lia.
    - intros d. unfold completion_dates, completions. simpl.
      rewrite !elem_of_cons. intuition. }
  assert (100 - 1 ≤ 100) as Hactive by lia.
  assert (100 < 102 - 1) as Hlapsed by lia.
  split; [exact Hdaily|]. split; [exact Hu|]. split.
  - split; [exact Hactive|].
    exact (proj2 (daily_current_streak 100 habit completions 100
                    [99; 98; 95] Hdaily Hu) Hactive).
  - split; [exact Hlapsed|].
    exact (proj1 (daily_current_streak 102 habit completions 100
                    [99; 98; 95] Hdaily Hu) Hlapsed).
Defined.

(* ===================================================================== *)
(** * Longest streak, daily cadence *)
(* ===================================================================== *)

Lemma adjacent_cons {A} (a b : A) l :
  adjacent (a :: b :: l) = (a, b) :: adjacent (b :: l).
Proof. done. Qed.

Lemma adjacent_snoc {A} (l : list A) y x :
  adjacent (l ++ [y; x]) = adjacent (l ++ [y]) ++ [(y, x)].
Proof.
  induction l as [|a l IH]; [done|].
  destruct l as [|b l]; [done|].
  change (adjacent (a :: (b :: l) ++ [y; x])
          = adjacent (a :: (b :: l) ++ [y]) ++ [(y, x)]).
  simpl app at 1 2. rewrite !adjacent_cons. simpl. f_equal. exact IH.
Qed.

(** The indexed loop of the daily longest streak is a left fold of
    [longest_step] over the adjacent pairs. *)
Lemma daily_longest_loop_scan pre x l longest current :
  daily_longest_loop (pre ++ x :: l) (seq (S (length pre)) (length l))
    longest current
  = Ok (foldl (longest_step day_step) (longest, current)
          (adjacent (x :: l))).1.
Proof.
  revert pre x longest current.
  induction l as [|y l IH]; intros pre x longest current; [done|].
  cbn [length seq daily_longest_loop].
  replace (S (length pre)) with (length pre + 1)%nat at 1 by lia.
  rewrite getitem_middle_next. cbn [mbind result_bind].
  replace (S (length pre) - 1)%nat with (length pre) by lia.
  rewrite getitem_middle. cbn [mbind result_bind].
  rewrite adjacent_cons. cbn [foldl].
  specialize (IH (pre ++ [x]) y).
  rewrite <- app_assoc, length_app in IH. simpl in IH.
  replace (length pre + 1)%nat with (S (length pre)) in IH by lia.
  unfold longest_step at 2. cbn [fst snd]. unfold day_step at 2.
  destruct (decide (y - x = 1)); apply IH.
Qed.

Section scan_facts.
Context {A : Type} (step : A → A → Prop) `{∀ a b, Decision (step a b)}.

Lemma run_from_shift l streak :
  run_from step l (streak + 1) = run_from step l streak + 1.
Proof.
  revert streak. induction l as [|a l IH]; intros streak; [done|].
  destruct l as [|b l]; [done|].
  rewrite !run_from_cons. destruct (decide (step a b)); [apply IH|done].
Qed.

Lemma run_from_lower l streak : streak ≤ run_from step l streak.
Proof.
  revert streak. induction l as [|a l IH]; intros streak; [done|].
  destruct l as [|b l]; [done|].
  rewrite run_from_cons. destruct (decide (step a b)); [|done].
  specialize (IH (streak + 1)). lia.
Qed.

(** The running counter never exceeds the maximum so far. *)
Lemma longest_step_le st ps :
  1 ≤ st.1 → st.2 ≤ st.1 →
  (foldl (longest_step step) st ps).2 ≤ (foldl (longest_step step) st ps).1.
Proof.
  revert st. induction ps as [|p ps IH]; intros [longest current] H1 Hst;
    [done|].
  simpl in *. unfold longest_step. simpl.
  destruct (decide (step p.2 p.1)); simpl; [|apply IH; simpl; lia].
  destruct (decide (current + 1 > longest)); apply IH; simpl; lia.
Qed.

Lemma longest_step_lower st ps :
  st.1 ≤ (foldl (longest_step step) st ps).1.
Proof.
  revert st. induction ps as [|p ps IH]; intros [longest current]; [done|].
  simpl. etrans; [|apply IH]. unfold longest_step. simpl.
  destruct (decide (step p.2 p.1)); simpl; [|lia].
  destruct (decide (current + 1 > longest)); simpl; lia.
Qed.

(** At the end of the scan of an oldest-first list, the running counter is
    the streak that the newest-first walk counts. *)
Lemma longest_scan_current l :
  l ≠ [] → (longest_scan step l).2 = run_from step (reverse l) 1.
Proof.
  induction l as [|x l IH] using rev_ind; intros _; [done|].
  destruct l as [|y l _] using rev_ind; [done|].
  rewrite <- app_assoc. simpl app. unfold longest_scan.
  rewrite adjacent_snoc, foldl_app. cbn [foldl].
  rewrite reverse_app.
  change (reverse [y; x] ++ reverse l) with (x :: y :: reverse l).
  rewrite run_from_cons.
  unfold longest_step at 1. cbn [fst snd].
  destruct (decide (step x y)); [|done]. cbn [snd].
  unfold longest_scan in IH. rewrite IH by (by destruct l).
  rewrite reverse_app.
  change (reverse [y] ++ reverse l) with (y :: reverse l).
  by rewrite run_from_shift.
Qed.

Lemma longest_scan_ge_current l :
  l ≠ [] → run_from step (reverse l) 1 ≤ (longest_scan step l).1.
Proof.
  intros Hl. rewrite <- longest_scan_current by done.
  by apply longest_step_le.
Qed.
End scan_facts.

(** The daily branch of the longest streak, in terms of the calendar date
    set. *)
Lemma get_longest_streak_daily habit completions u :
  schedule habit = "daily" → u ≠ [] →
  dates_desc completions u →
  get_longest_streak_for_habit habit completions
  = Ok (longest_scan day_step (reverse u)).1.
Proof.
  intros Hdaily Hne Hu. unfold get_longest_streak_for_habit.
  rewrite decide_False by (by eapply dates_desc_nonempty).
  rewrite (unique_dates_asc _ _ Hu).
  destruct (reverse u) as [|x l] eqn:Hrev.
  { apply (f_equal length) in Hrev. rewrite length_reverse in Hrev.
    by destruct u. }
  destruct (decide (length (x :: l) = 1%nat)) as [Hlen|Hlen].
  { by destruct l. }
  rewrite decide_True by done.
  replace (length (x :: l) - 1)%nat with (length l) by (simpl; lia).
  apply (daily_longest_loop_scan [] x l 1 1).
Qed.

(** C7. Daily cadence, most recent completion date today: the longest
    streak is at least the current streak. *)
Theorem longest_ge_current_daily today habit completions :
  schedule habit = "daily" →
  today ∈ completion_dates completions →
  (∀ d, d ∈ completion_dates completions → d ≤ today) →
  ∃ current longest,
    get_current_streak_for_habit today habit completions = Ok current ∧
    get_longest_streak_for_habit habit completions = Ok longest ∧
    current ≤ longest.
Proof.
  intros Hdaily Htoday Hmax.
  destruct (dates_desc_exists completions) as [u Hu].
  assert (today ∈ u) as Hin by (by apply Hu).
  destruct u as [|newest rest]; [by apply elem_of_nil in Hin|].
  unfold get_current_streak_for_habit. rewrite Hdaily.
  rewrite (calculate_streak_daily _ _ _ _ Hu).
  assert (newest :: rest ≠ []) as Hne by done.
  rewrite (get_longest_streak_daily _ _ _ Hdaily Hne Hu).
  pose proof (longest_scan_ge_current day_step (reverse (newest :: rest)))
    as Hge.
  rewrite reverse_involutive in Hge.
  pose proof (run_from_lower day_step (newest :: rest) 1) as Hlow.
  destruct (decide (newest < today - 1)); eexists _, _;
    (split; [done|split; [done|]]).
  - etrans; [|apply Hge]; [lia|]. intros Hnil.
    apply (f_equal length) in Hnil. by rewrite length_reverse in Hnil.
  - apply Hge. intros Hnil.
    apply (f_equal length) in Hnil. by rewrite length_reverse in Hnil.
Qed.

Lemma longest_ge_current_daily_witness :
  let habit := mkHabit "Read" "" "daily" (Datetime 90 0) in
  let completions :=
    [Datetime 100 0; Datetime 99 0; Datetime 96 0; Datetime 95 0;
     Datetime 94 0; Datetime 93 0] in
  ∃ current longest,
    get_current_streak_for_habit 100 habit completions = Ok current ∧
    get_longest_streak_for_habit habit completions = Ok longest ∧
    current ≤ longest.
Proof.
  intros habit completions.
  apply (longest_ge_current_daily 100 habit completions).
  - reflexivity.
  - unfold completion_dates, completions. simpl. left.
  - intros d. unfold completion_dates, completions. simpl.
    rewrite !elem_of_cons, elem_of_nil. lia.
Defined.

(* ===================================================================== *)
(** * Same-day duplicates *)
(* ===================================================================== *)

(** Both streak functions look at the completions only through the set of
    their dates (and through whether there is any completion at all). *)
Lemma calculate_streak_unique today completions1 completions2 schedule :
  (length completions1 = 0%nat ↔ length completions2 = 0%nat) →
  unique (dt_date <$> completions1) = unique (dt_date <$> completions2) →
  calculate_streak today completions1 schedule
  = calculate_streak today completions2 schedule.
Proof.
  intros Hlen Hset. unfold calculate_streak. rewrite Hset.
  destruct (decide (length completions1 = 0%nat)) as [H1|H1],
    (decide (length completions2 = 0%nat)) as [H2|H2]; try done;
    exfalso; tauto.
Qed.

Lemma get_longest_streak_unique habit completions1 completions2 :
  (length completions1 = 0%nat ↔ length completions2 = 0%nat) →
  unique (dt_date <$> completions1) = unique (dt_date <$> completions2) →
  get_longest_streak_for_habit habit completions1
  = get_longest_streak_for_habit habit completions2.
Proof.
  intros Hlen Hset. unfold get_longest_streak_for_habit. rewrite Hset.
  destruct (decide (length completions1 = 0%nat)) as [H1|H1],
    (decide (length completions2 = 0%nat)) as [H2|H2]; try done;
    exfalso; tauto.
Qed.

(** C8. For either cadence, appending a completion whose calendar date
    already occurs in the list changes neither the current nor the longest
    streak. *)
Theorem duplicate_completion_idempotent today habit completions c :
  dt_date c ∈ completion_dates completions →
  get_current_streak_for_habit today habit (completions ++ [c])
  = get_current_streak_for_habit today habit completions ∧
  get_longest_streak_for_habit habit (completions ++ [c])
  = get_longest_streak_for_habit habit completions.
Proof.
  intros Hc. unfold completion_dates in Hc.
  assert (length (completions ++ [c]) = 0%nat ↔ length completions = 0%nat)
    as Hlen.
  { rewrite length_app. simpl. split; [lia|]. intros Hnil.
    apply nil_length_inv in Hnil as ->. by apply elem_of_nil in Hc. }
  assert (unique (dt_date <$> completions ++ [c])
          = unique (dt_date <$> completions)) as Hset.
  { rewrite fmap_app. simpl. by apply unique_app_dup. }
  split.
  - by apply calculate_streak_unique.
  - by apply get_longest_streak_unique.
Qed.

Lemma duplicate_completion_idempotent_witness :
  let habit := mkHabit "Review" "" "weekly" (Datetime 90 0) in
  let completions := [Datetime 738522 0; Datetime 738529 0] in
  let c := Datetime 738529 3600000000 in
  dt_date c ∈ completion_dates completions ∧
  get_current_streak_for_habit 738530 habit (completions ++ [c])
  = get_current_streak_for_habit 738530 habit completions ∧
  get_longest_streak_for_habit habit (completions ++ [c])
  = get_longest_streak_for_habit habit completions.
Proof.
  intros habit completions c.
  assert (dt_date c ∈ completion_dates completions) as Hc.
  { unfold completion_dates, completions, c. simpl. right. left. }
  split; [exact Hc|].
  exact (duplicate_completion_idempotent 738530 habit completions c Hc).
Defined.

(* ===================================================================== *)
(** * Adherence *)
(* ===================================================================== *)

(** The counting loop over the completions of a habit. *)
Lemma count_in_range period_start period_end comp_list n :
  foldl (λ n c,
           let c_date := dt_date c in
           if decide (c_date >= period_start ∧ c_date <= period_end)
           then n + 1 else n) n comp_list
  = n + actual period_start period_end comp_list.
Proof.
  revert n. unfold actual.
  induction comp_list as [|c l IH]; intros n; simpl; [lia|].
  rewrite IH, filter_cons. unfold in_window at 2.
  destruct (decide (dt_date c >= period_start ∧ dt_date c <= period_end)),
    (decide (period_start ≤ dt_date c ≤ period_end)); simpl; lia.
Qed.

Lemma foldl_snoc_fmap {A B} (f : A → B) (l : list A) (acc : list B) :
  foldl (λ acc x, acc ++ [f x]) acc l = acc ++ (f <$> l).
Proof.
  revert acc. induction l as [|x l IH]; intros acc; simpl.
  - by rewrite app_nil_r.
  - by rewrite IH, <- app_assoc.
Qed.

(** [find_struggling_habits] sorts the rows of the habits, taken in the
    order of the habit list. *)
Lemma find_struggling_habits_rows today habits all_completions ps pe :
  find_struggling_habits today habits all_completions ps pe
  = sort (λ x y, bool_decide (y.2 ≤ x.2))
      (row_of (period_window today ps pe).1 (period_window today ps pe).2
         all_completions <$> habits).
Proof.
  unfold find_struggling_habits, period_window. cbn [fst snd].
  destruct (decide (length habits = 0%nat)) as [Hlen|Hlen].
  { by apply nil_length_inv in Hlen as ->. }
  clear Hlen. f_equal.
  match goal with
  | |- foldl ?body [] habits = ?rows =>
      enough (∀ acc, foldl body acc habits = acc ++ rows) as Hgen
        by exact (Hgen [])
  end.
  induction habits as [|h habits IH]; intros acc; cbn [foldl fmap list_fmap].
  { by rewrite app_nil_r. }
  rewrite IH, <- app_assoc. cbn [app]. do 3 f_equal.
  unfold row_of. f_equal.
  rewrite count_in_range.
  unfold expected_of_schedule, days_in_window, completions_of.
  destruct (decide (schedule h = "daily")); case_decide; lia.
Qed.

Lemma Forall2_fmap_diag {A B} (P : A → B → Prop) (f : A → B) l :
  (∀ x, x ∈ l → P x (f x)) → Forall2 P l (f <$> l).
Proof.
  induction l as [|x l IH]; intros HP; simpl; constructor.
  - apply HP. left.
  - apply IH. intros y Hy. apply HP. by right.
Qed.

(** The row of a habit carries the missed count of the design document. *)
Lemma row_of_missed ws we all_completions h c :
  cadence_of (schedule h) = Some c →
  (row_of ws we all_completions h).2
  = missed c ws we (completions_of all_completions (name h)).
Proof.
  unfold cadence_of, row_of, missed, expected, expected_of_schedule.
  cbn [snd]. intros Hc.
  destruct (decide (schedule h = "daily")); [by simplify_eq|].
  destruct (decide (schedule h = "weekly")); by simplify_eq.
Qed.

Lemma row_of_nonneg ws we all_completions h :
  0 ≤ (row_of ws we all_completions h).2.
Proof. unfold row_of. cbn [snd]. lia. Qed.

(** C5. In the report of [find_struggling_habits] every habit has a row
    whose missed count is max(0, expected - actual), with actual the number
    of its completions dated inside the inclusive window and expected the
    number of days of the window for a daily habit and
    floor(days / 7) + 1 for a weekly one; no missed count is negative. *)
Theorem find_struggling_missed today habits all_completions ps pe :
  let ws := (period_window today ps pe).1 in
  let we := (period_window today ps pe).2 in
  ∃ results,
    Forall2 (λ h row,
               row.1 = name h ∧ 0 ≤ row.2 ∧
               ∀ c, cadence_of (schedule h) = Some c →
                    row.2 = missed c ws we
                              (completions_of all_completions (name h)))
            habits results ∧
    find_struggling_habits today habits all_completions ps pe ≡ₚ results.
Proof.
  intros ws we. exists (row_of ws we all_completions <$> habits). split.
  - apply Forall2_fmap_diag. intros h _. split; [done|].
    split; [apply row_of_nonneg|]. intros c Hc. by apply row_of_missed.
  - rewrite find_struggling_habits_rows. apply sort_Permutation.
Qed.

#[local] Instance missed_desc_trans : Transitive missed_desc.
Proof. intros p q r. unfold missed_desc. lia. Qed.


(** C10. A habit without an entry in the completion map is not an error: it
    counts as having no completion in the window, so its row carries
    max(0, expected), which over a window whose start is not after its end
    is its full expected count. *)
Theorem find_struggling_no_entry today habits all_completions ps pe h c :
  let ws := (period_window today ps pe).1 in
  let we := (period_window today ps pe).2 in
  let report := find_struggling_habits today habits all_completions ps pe in
  h ∈ habits →
  all_completions !! name h = None →
  cadence_of (schedule h) = Some c →
  actual ws we (completions_of all_completions (name h)) = 0 ∧
  (name h, Z.max 0 (expected c ws we)) ∈ report ∧
  (ws ≤ we → (name h, expected c ws we) ∈ report).
Proof.
  intros ws we report Hin Hnone Hc.
  assert (actual ws we (completions_of all_completions (name h)) = 0) as Hact.
  { unfold completions_of. by rewrite Hnone. }
  assert ((name h, Z.max 0 (expected c ws we)) ∈ report) as Hrow.
  { unfold report. rewrite find_struggling_habits_rows, elem_of_sort.
    apply list_elem_of_fmap. exists h. split; [|done].
    fold ws we. rewrite (surjective_pairing (row_of ws we all_completions h)).
    rewrite (row_of_missed _ _ _ _ c Hc). unfold row_of at 1. cbn [fst].
    f_equal. unfold missed. rewrite Hact. f_equal. lia. }
  split; [done|]. split; [done|]. intros Hwin.
  replace (expected c ws we) with (Z.max 0 (expected c ws we)); [done|].
  assert (0 ≤ expected c ws we); [|lia].
  unfold expected, days_in_window. destruct c; [lia|].
  assert (0 ≤ (we - ws + 1) `div` 7) by (apply Z.div_pos; lia). lia.
Qed.

Lemma find_struggling_no_entry_witness :
  let habits := [mkHabit "Read" "" "daily" (Datetime 80 0);
                 mkHabit "Review" "" "weekly" (Datetime 80 0)] in
  let all_completions : gmap string (list datetime) :=
    {["Read" := [Datetime 99 0; Datetime 95 0]]} in
  let h := mkHabit "Review" "" "weekly" (Datetime 80 0) in
  let ws := (period_window 100 (Some 90) (Some 100)).1 in
  let we := (period_window 100 (Some 90) (Some 100)).2 in
  let report :=
    find_struggling_habits 100 habits all_completions (Some 90) (Some 100) in
  h ∈ habits ∧
  all_completions !! name h = None ∧
  cadence_of (schedule h) = Some Weekly ∧
  ws ≤ we ∧
  actual ws we (completions_of all_completions (name h)) = 0 ∧
  (name h, Z.max 0 (expected Weekly ws we)) ∈ report ∧
  (name h, expected Weekly ws we) ∈ report.
Proof.
  intros habits all_completions h ws we report.
  assert (h ∈ habits) as Hin by (right; left).
  assert (all_completions !! name h = None) as Hnone by reflexivity.
  assert (cadence_of (schedule h) = Some Weekly) as Hc by reflexivity.
  assert (ws ≤ we) as Hwin by (unfold ws, we; simpl; lia).
  split; [exact Hin|]. split; [exact Hnone|]. split; [exact Hc|].
  split; [exact Hwin|].
  destruct (find_struggling_no_entry 100 habits all_completions (Some 90)
              (Some 100) h Weekly Hin Hnone Hc) as (Hact & Hrow & Hfull).
  split; [exact Hact|]. split; [exact Hrow|]. exact (Hfull Hwin).
Defined.

(** The window used when neither bound is given runs from thirty days
    before today to today, and is counted as 31 days. *)
Lemma default_window today :
  period_window today None None = (today - 30, today) ∧
  days_in_window (period_window today None None).1
    (period_window today None None).2 = 31.
Proof. unfold period_window, days_in_window. simpl. split; [done|lia]. Qed.

(** C2. With neither bound given, a daily habit without completions is
    reported with 31 missed days: the default window is counted as 31 days,
    not 30. *)
Theorem find_struggling_default_window_31 today :
  find_struggling_habits today
    [mkHabit "Read" "" "daily" (Datetime 738000 0)] ∅ None None
  = [("Read", 31)].
Proof.
  rewrite find_struggling_habits_rows. cbn [fmap list_fmap sort foldr insort].
  f_equal. unfold row_of. cbn [schedule name].
  destruct (default_window today) as [_ ->].
  unfold expected_of_schedule, actual, completions_of.
  rewrite decide_True by done. rewrite lookup_empty. reflexivity.
Qed.

(* ===================================================================== *)
(** * Filter by schedule *)
(* ===================================================================== *)

(** The filter never raises: it returns a list for every schedule text. *)
Lemma get_habits_by_periodicity_returns habits schedule :
  ∃ printed matching,
    get_habits_by_periodicity habits schedule = (printed, Ok matching).
Proof.
  unfold get_habits_by_periodicity.
  destruct (decide (schedule ≠ "daily" ∧ schedule ≠ "weekly")); eauto.
Qed.

(** For a schedule that is neither daily nor weekly it prints a warning and
    returns the empty list. *)
Lemma get_habits_by_periodicity_invalid habits schedule :
  schedule ≠ "daily" → schedule ≠ "weekly" →
  get_habits_by_periodicity habits schedule
  = (["Warning: Invalid schedule " +:+ schedule], Ok []).
Proof.
  intros Hd Hw. unfold get_habits_by_periodicity. by rewrite decide_True.
Qed.

(** C1. On the habit list and the schedule of the repository's test for an
    invalid periodicity, the filter does not raise: it prints a warning and
    returns the empty list. *)
Theorem get_habits_by_periodicity_monthly :
  get_habits_by_periodicity
    [mkHabit "Test" "" "daily" (Datetime 738000 0)] "monthly"
  = (["Warning: Invalid schedule monthly"], Ok []).
Proof. by apply get_habits_by_periodicity_invalid. Qed.

(* ===================================================================== *)
(** * The text of a week bucket *)
(* ===================================================================== *)

(** Strings of decimal digits. *)
Lemma is_digit_digit_char d : 0 ≤ d < 10 → is_digit (digit_char d) = true.
Proof.
  intros Hd.
  assert (d = 0 ∨ d = 1 ∨ d = 2 ∨ d = 3 ∨ d = 4 ∨ d = 5 ∨ d = 6 ∨ d = 7
          ∨ d = 8 ∨ d = 9) as Hcases by lia.
  repeat destruct Hcases as [->|Hcases]; try subst d; reflexivity.
Qed.

Lemma digit_val_digit_char d : 0 ≤ d < 10 → digit_val (digit_char d) = d.
Proof.
  intros Hd.
  assert (d = 0 ∨ d = 1 ∨ d = 2 ∨ d = 3 ∨ d = 4 ∨ d = 5 ∨ d = 6 ∨ d = 7
          ∨ d = 8 ∨ d = 9) as Hcases by lia.
  repeat destruct Hcases as [->|Hcases]; try subst d; reflexivity.
Qed.

Lemma digit_char_compare a b :
  0 ≤ a < 10 → 0 ≤ b < 10 →
  Ascii.compare (digit_char a) (digit_char b) = (a ?= b).
Proof.
  intros Ha Hb.
  assert (a = 0 ∨ a = 1 ∨ a = 2 ∨ a = 3 ∨ a = 4 ∨ a = 5 ∨ a = 6 ∨ a = 7
          ∨ a = 8 ∨ a = 9) as Hcases by lia.
  assert (b = 0 ∨ b = 1 ∨ b = 2 ∨ b = 3 ∨ b = 4 ∨ b = 5 ∨ b = 6 ∨ b = 7
          ∨ b = 8 ∨ b = 9) as Hcases' by lia.
  repeat destruct Hcases as [->|Hcases]; try subst a;
    repeat destruct Hcases' as [->|Hcases']; try subst b; reflexivity.
Qed.

Lemma digit_char_not_dash d : 0 ≤ d < 10 → digit_char d ≠ "-"%char.
Proof.
  intros Hd.
  assert (d = 0 ∨ d = 1 ∨ d = 2 ∨ d = 3 ∨ d = 4 ∨ d = 5 ∨ d = 6 ∨ d = 7
          ∨ d = 8 ∨ d = 9) as Hcases by lia.
  repeat destruct Hcases as [->|Hcases]; try subst d; discriminate.
Qed.

Lemma zfill_S w n :
  zfill (S w) n = zfill w (n `div` 10) +:+ String (digit_char (n `mod` 10)) "".
Proof. done. Qed.

Lemma zfill_length w n : String.length (zfill w n) = w.
Proof.
  revert n. induction w as [|w IH]; intros n; [done|].
  rewrite zfill_S.
  assert (∀ s c, String.length (s +:+ String c "") = S (String.length s))
    as Hlen.
  { intros s c. induction s as [|c' s IHs]; simpl; [done|]. by rewrite IHs. }
  by rewrite Hlen, IH.
Qed.

Lemma split_nonempty sep s : split sep s ≠ [].
Proof.
  destruct s as [|c s]; simpl; [done|].
  destruct (decide (c = sep)); [done|]. by destruct (split sep s).
Qed.

(** [split] on a text without dash, and on a text whose first dash comes
    after a dash-free prefix. *)
Lemma split_zfill w n : split "-" (zfill w n) = [zfill w n].
Proof.
  revert n. induction w as [|w IH]; intros n; [done|].
  rewrite zfill_S. specialize (IH (n `div` 10)).
  assert (0 ≤ n `mod` 10 < 10) as Hd by (apply Z.mod_pos_bound; lia).
  pose proof (digit_char_not_dash _ Hd) as Hc.
  revert IH. generalize (zfill w (n `div` 10)) (digit_char (n `mod` 10)) Hc.
  clear. intros s c Hc. induction s as [|c' s IHs]; simpl.
  - intros _. by rewrite decide_False.
  - destruct (decide (c' = "-"%char)); [done|].
    destruct (split "-" s) as [|h t] eqn:Hs; [by apply split_nonempty in Hs|].
    intros [= -> ->]. by rewrite IHs.
Qed.

Lemma split_zfill_dash w n s :
  split "-" (zfill w n +:+ String "-" s) = zfill w n :: split "-" s.
Proof.
  pose proof (split_zfill w n) as Hsplit. revert Hsplit.
  generalize (zfill w n). intros p. induction p as [|c p IH]; simpl.
  - done.
  - destruct (decide (c = "-"%char)); [done|].
    destruct (split "-" p) as [|h t] eqn:Hp; [by apply split_nonempty in Hp|].
    intros [= -> ->]. by rewrite IH.
Qed.

Lemma split_bucket_key p :
  split "-" (bucket_key p) = [zfill 4 p.1; zfill 2 p.2].
Proof.
  unfold bucket_key.
  change ("-" +:+ zfill 2 p.2) with (String "-" (zfill 2 p.2)).
  by rewrite split_zfill_dash, split_zfill.
Qed.

(** [int] reads back the number that [zfill] wrote. *)
Lemma int_digits_app acc s1 s2 :
  int_digits acc (s1 +:+ s2) = r ← int_digits acc s1; int_digits r s2.
Proof.
  revert acc. induction s1 as [|c s1 IH]; intros acc; simpl; [done|].
  destruct (is_digit c); [apply IH|done].
Qed.

Lemma int_digits_zfill w n acc :
  int_digits acc (zfill w n) = Ok (acc * 10 ^ Z.of_nat w + n `mod` 10 ^ Z.of_nat w).
Proof.
  revert n acc. induction w as [|w IH]; intros n acc.
  { simpl. rewrite Z.mod_1_r. f_equal. lia. }
  rewrite zfill_S, int_digits_app, IH. cbn [mbind result_bind int_digits].
  assert (0 ≤ n `mod` 10 < 10) as Hd by (apply Z.mod_pos_bound; lia).
  rewrite is_digit_digit_char, digit_val_digit_char by done. f_equal.
  rewrite Nat2Z.inj_succ, Z.pow_succ_r by lia.
  rewrite (Z.rem_mul_r n 10 (10 ^ Z.of_nat w)) by lia. lia.
Qed.

Lemma int_zfill w n :
  (0 < w)%nat → int (zfill w n) = Ok (n `mod` 10 ^ Z.of_nat w).
Proof.
  intros Hw. unfold int.
  destruct (zfill w n) as [|c s] eqn:Hz.
  { apply (f_equal String.length) in Hz. rewrite zfill_length in Hz.
    simpl in Hz. lia. }
  rewrite <- Hz, int_digits_zfill. f_equal.
Qed.

(** Comparison of texts written with [zfill]. *)
Lemma compare_app s1 s2 t1 t2 :
  String.length s1 = String.length s2 →
  String.compare (s1 +:+ t1) (s2 +:+ t2)
  = match String.compare s1 s2 with
    | Eq => String.compare t1 t2
    | c => c
    end.
Proof.
  revert s2. induction s1 as [|c1 s1 IH]; intros [|c2 s2] Hlen;
    simplify_eq/=; [done|].
  destruct (Ascii.compare c1 c2); [by apply IH|done..].
Qed.

Lemma compare_lex a b a0 b0 :
  0 ≤ a0 < 10 → 0 ≤ b0 < 10 →
  (a0 + 10 * a ?= b0 + 10 * b)
  = match a ?= b with Eq => a0 ?= b0 | c => c end.
Proof.
  intros Ha Hb.
  destruct (Z.compare_spec a b), (Z.compare_spec a0 b0);
    first [apply Z.compare_eq_iff | apply Z.compare_lt_iff
          | apply Z.compare_gt_iff]; lia.
Qed.

Lemma compare_zfill w a b :
  String.compare (zfill w a) (zfill w b)
  = (a `mod` 10 ^ Z.of_nat w ?= b `mod` 10 ^ Z.of_nat w).
Proof.
  revert a b. induction w as [|w IH]; intros a b.
  { simpl. by rewrite !Z.mod_1_r. }
  rewrite !zfill_S, compare_app by (by rewrite !zfill_length).
  rewrite IH. cbn [String.compare].
  assert (0 ≤ a `mod` 10 < 10) as Ha by (apply Z.mod_pos_bound; lia).
  assert (0 ≤ b `mod` 10 < 10) as Hb by (apply Z.mod_pos_bound; lia).
  rewrite digit_char_compare by done.
  rewrite Nat2Z.inj_succ, Z.pow_succ_r by lia.
  rewrite (Z.rem_mul_r a 10 (10 ^ Z.of_nat w)) by lia.
  rewrite (Z.rem_mul_r b 10 (10 ^ Z.of_nat w)) by lia.
  rewrite compare_lex by done.
  by destruct (a `mod` 10 ?= b `mod` 10).
Qed.

Lemma compare_bucket_key p q :
  valid_bucket p → valid_bucket q →
  String.compare (bucket_key p) (bucket_key q)
  = match p.1 ?= q.1 with Eq => p.2 ?= q.2 | c => c end.
Proof.
  intros [Hp1 Hp2] [Hq1 Hq2]. unfold bucket_key.
  rewrite compare_app by (by rewrite !zfill_length).
  rewrite compare_zfill.
  change (String.compare ("-" +:+ zfill 2 p.2) ("-" +:+ zfill 2 q.2))
    with (String.compare (zfill 2 p.2) (zfill 2 q.2)).
  rewrite compare_zfill.
  change (10 ^ Z.of_nat 4) with 10000. change (10 ^ Z.of_nat 2) with 100.
  by rewrite !Z.mod_small by done.
Qed.

(** The reversed text comparison of [sort(reverse=True)] is the comparison
    of the buckets. *)
Lemma leb_bucket_key p q :
  valid_bucket p → valid_bucket q →
  String.leb (bucket_key q) (bucket_key p) = bucket_geb p q.
Proof.
  intros Hp Hq. unfold String.leb, bucket_geb.
  rewrite compare_bucket_key by done.
  destruct (Z.compare_spec q.1 p.1), (Z.compare_spec q.2 p.2);
    symmetry; first [apply bool_decide_eq_true | apply bool_decide_eq_false];
    lia.
Qed.

Lemma string_compare_refl s : String.compare s s = Eq.
Proof.
  induction s as [|c s IH]; simpl; [done|].
  unfold Ascii.compare. by rewrite N.compare_refl.
Qed.

Lemma bucket_key_inj p q :
  valid_bucket p → valid_bucket q → bucket_key p = bucket_key q → p = q.
Proof.
  intros Hp Hq Hkey.
  pose proof (compare_bucket_key p q Hp Hq) as Hcmp.
  rewrite Hkey in Hcmp.
  rewrite string_compare_refl in Hcmp. destruct p as [p1 p2], q as [q1 q2]. simpl in *.
  destruct (Z.compare_spec p1 q1); [|done..].
  symmetry in Hcmp. apply Z.compare_eq_iff in Hcmp. by subst.
Qed.

(** ** Buckets of valid dates *)

Lemma weekday_bound d : 0 ≤ weekday d < 7.
Proof. unfold weekday. apply Z.mod_pos_bound. lia. Qed.

Lemma ord2year_yday_bound d :
  valid_date d →
  1 ≤ (ord2year_yday d).1 ≤ 9999 ∧ 0 ≤ (ord2year_yday d).2 ≤ 365.
Proof.
  unfold valid_date, date_min, date_max, ord2year_yday. intros Hd.
  cbv zeta. case_bool_decide; cbn [fst snd];
    Z.div_mod_to_equations; lia.
Qed.

Lemma bucket_valid d : valid_date d → valid_bucket (bucket d).
Proof.
  intros Hd. destruct (ord2year_yday_bound d Hd) as [Hy Hn].
  pose proof (weekday_bound d) as Hw.
  unfold valid_bucket, bucket, year, week_of_year, yday0. cbn [fst snd].
  split; [lia|]. Z.div_mod_to_equations. lia.
Qed.

Lemma strftime_bucket_key d : strftime_Y_W d = bucket_key (bucket d).
Proof. done. Qed.

(** ** The [weeks] dictionary *)

Lemma elem_of_keys (weeks : gmap string bool) k :
  k ∈ keys weeks ↔ is_Some (weeks !! k).
Proof.
  unfold keys. rewrite list_elem_of_fmap. split.
  - intros ([k' v] & -> & Hkv). apply elem_of_map_to_list in Hkv. by exists v.
  - intros [v Hv]. exists (k, v). split; [done|]. by apply elem_of_map_to_list.
Qed.

Lemma keys_NoDup (weeks : gmap string bool) : NoDup (keys weeks).
Proof. apply NoDup_fst_map_to_list. Qed.

Lemma lookup_group_by_week (weeks : gmap string bool) u k :
  is_Some (foldl (λ weeks d, <[strftime_Y_W d := true]> weeks) weeks u !! k)
  ↔ is_Some (weeks !! k) ∨ ∃ d, d ∈ u ∧ k = strftime_Y_W d.
Proof.
  revert weeks. induction u as [|d u IH]; intros weeks; simpl.
  - split; [by left|]. intros [?|(d & Hd & _)]; [done|].
    by apply elem_of_nil in Hd.
  - rewrite IH. rewrite lookup_insert_is_Some. split.
    + intros [[Hk|[_ Hk]]|(d' & Hd' & Hk)].
      * right. exists d. split; [left|done].
      * by left.
      * right. exists d'. split; [by right|done].
    + intros [Hk|(d' & Hd' & Hk)].
      * destruct (decide (strftime_Y_W d = k)); left; [by left|by right].
      * apply elem_of_cons in Hd' as [->|Hd'].
        -- left. by left.
        -- right. by exists d'.
Qed.

Lemma elem_of_keys_group_by_week u k :
  k ∈ keys (group_by_week u) ↔ ∃ d, d ∈ u ∧ k = strftime_Y_W d.
Proof.
  rewrite elem_of_keys. unfold group_by_week. rewrite lookup_group_by_week.
  rewrite lookup_empty. split; [|by right].
  intros [[? Hk]|Hk]; done.
Qed.

(** Every key is the text of the bucket of one of the dates. *)
Lemma keys_as_buckets (u : list Z) (ks : list string) :
  (∀ k, k ∈ ks → ∃ d, d ∈ u ∧ k = strftime_Y_W d) →
  ∃ l, ks = bucket_key <$> l ∧ ∀ p, p ∈ l → ∃ d, d ∈ u ∧ p = bucket d.
Proof.
  induction ks as [|k ks IH]; intros Hks.
  { exists []. split; [done|]. intros p Hp. by apply elem_of_nil in Hp. }
  destruct IH as (l & -> & Hl); [intros k' Hk'; apply Hks; by right|].
  destruct (Hks k) as (d & Hd & ->); [left|].
  exists (bucket d :: l). split; [done|].
  intros p [->|Hp]%elem_of_cons; [by exists d|by apply Hl].
Qed.

(** The order on buckets. *)
#[local] Instance bucket_ge_trans : Transitive bucket_ge.
Proof.
  intros [p1 p2] [q1 q2] [r1 r2]. unfold bucket_ge. cbn [fst snd].
  intros ? ?. lia.
Qed.
#[local] Instance bucket_ge_antisym : AntiSymm (=) bucket_ge.
Proof.
  intros [p1 p2] [q1 q2]. unfold bucket_ge. cbn [fst snd]. intros ? ?.
  f_equal; lia.
Qed.
#[local] Instance bucket_newer_irrefl : Irreflexive bucket_newer.
Proof. intros [p1 p2]. unfold bucket_newer. cbn [fst snd]. intros ?. lia. Qed.

(** Every completion list has a list of buckets, newest first. *)
Lemma buckets_desc_exists completions : ∃ b, buckets_desc completions b.
Proof.
  exists (sort bucket_geb
            (elements (list_to_set (bucket <$> completion_dates completions)
                       : gset (Z * Z)))).
  split.
  - apply (StronglySorted_strict bucket_ge).
    + intros [x1 x2] [y1 y2]. unfold bucket_ge, bucket_newer. cbn [fst snd].
      intros Hge Hne.
      destruct (decide (y1 = x1)) as [->|]; [|lia].
      assert (y2 ≠ x2) by congruence. lia.
    + apply Sorted_StronglySorted; [apply _|].
      eapply Sorted_weaken; [|apply sort_Sorted].
      * intros x y. unfold bucket_geb, bucket_ge.
        by rewrite bool_decide_eq_true.
      * intros x y. unfold bucket_geb.
        rewrite bool_decide_eq_false, bool_decide_eq_true. lia.
    + apply sort_NoDup, NoDup_elements.
  - intros p. rewrite elem_of_sort, elem_of_elements, elem_of_list_to_set.
    rewrite list_elem_of_fmap. split.
    + intros (d & -> & Hd). by exists d.
    + intros (d & Hd & ->). by exists d.
Qed.

(** The code's [week_list] after [sort(reverse=True)] is the list of the
    texts of the buckets, newest first. *)
Lemma week_list_desc completions u b :
  Forall (λ c, valid_date (dt_date c)) completions →
  dates_desc completions u →
  buckets_desc completions b →
  sort (λ x y, String.leb y x) (keys (group_by_week u)) = bucket_key <$> b.
Proof.
  intros Hvalid [_ Hu] [Hsorted Hb].
  assert (∀ d, d ∈ u → valid_date d) as Hvalid_u.
  { intros d Hd. apply Hu in Hd. unfold completion_dates in Hd.
    apply list_elem_of_fmap in Hd as (c & -> & Hc).
    rewrite Forall_forall in Hvalid. by apply Hvalid. }
  destruct (keys_as_buckets u (keys (group_by_week u))) as (l & Hkeys & Hl).
  { intros k. by rewrite elem_of_keys_group_by_week. }
  assert (∀ p, p ∈ l → valid_bucket p) as Hvalid_l.
  { intros p Hp. destruct (Hl p Hp) as (d & Hd & ->).
    by apply bucket_valid, Hvalid_u. }
  assert (∀ p, p ∈ b → valid_bucket p) as Hvalid_b.
  { intros p Hp. apply Hb in Hp as (d & Hd & ->).
    by apply bucket_valid, Hvalid_u, Hu. }
  rewrite Hkeys.
  rewrite (sort_fmap bucket_key bucket_geb)
    by (intros x y Hx Hy; apply leb_bucket_key; auto).
  f_equal. apply (sort_unique _ bucket_ge).
  - intros x y. unfold bucket_geb, bucket_ge. by rewrite bool_decide_eq_true.
  - intros x y. unfold bucket_geb.
    rewrite bool_decide_eq_false, bool_decide_eq_true. lia.
  - eapply StronglySorted_weaken; [|done].
    intros x y. unfold bucket_newer, bucket_ge. lia.
  - apply NoDup_Permutation.
    + apply (NoDup_fmap_1 bucket_key). rewrite <- Hkeys. apply keys_NoDup.
    + by apply (StronglySorted_NoDup bucket_newer).
    + intros p. split.
      * intros Hp. apply Hb. destruct (Hl p Hp) as (d & Hd & ->).
        exists d. split; [by apply Hu|done].
      * intros Hp. pose proof (Hvalid_b p Hp) as Hvp.
        apply Hb in Hp as (d & Hd & ->).
        assert (strftime_Y_W d ∈ keys (group_by_week u)) as Hk.
        { apply elem_of_keys_group_by_week. exists d. split; [by apply Hu|done]. }
        rewrite Hkeys in Hk. apply list_elem_of_fmap in Hk as (p' & Hkey & Hp').
        rewrite strftime_bucket_key in Hkey.
        apply bucket_key_inj in Hkey as ->; auto.
Qed.

(* ===================================================================== *)
(** * Current streak, weekly cadence *)
(* ===================================================================== *)

Lemma zfill_inj w a b :
  0 ≤ a < 10 ^ Z.of_nat w → 0 ≤ b < 10 ^ Z.of_nat w →
  zfill w a = zfill w b → a = b.
Proof.
  intros Ha Hb Heq. pose proof (compare_zfill w a b) as Hcmp.
  rewrite Heq, string_compare_refl, !Z.mod_small in Hcmp by done.
  symmetry in Hcmp. by apply Z.compare_eq_iff in Hcmp.
Qed.

(** One comparison of the weekly loops, on the texts of two valid buckets:
    the unpacked years are equal exactly when the years are, and the week
    texts read back as the week numbers. *)
Lemma unpack_bucket_key p :
  unpack2 (split "-" (bucket_key p)) = Ok (zfill 4 p.1, zfill 2 p.2).
Proof. by rewrite split_bucket_key. Qed.

Lemma int_week p : valid_bucket p → int (zfill 2 p.2) = Ok p.2.
Proof.
  intros [_ Hw]. rewrite int_zfill by lia.
  change (10 ^ Z.of_nat 2) with 100. by rewrite Z.mod_small.
Qed.

Lemma year_text_eq p q :
  valid_bucket p → valid_bucket q → zfill 4 p.1 = zfill 4 q.1 ↔ p.1 = q.1.
Proof.
  intros [Hp _] [Hq _]. split; [|by intros ->].
  apply zfill_inj; by change (10 ^ Z.of_nat 4) with 10000.
Qed.

(** The indexed loop of the weekly branch is the walk over the buckets. *)
Lemma weekly_streak_loop_run pre l streak :
  Forall valid_bucket l →
  weekly_streak_loop (bucket_key <$> pre ++ l)
    (seq (length pre) (length l - 1)) streak
  = Ok (run_from week_step l streak).
Proof.
  revert pre streak. induction l as [|a l IH]; intros pre streak Hvalid;
    [done|].
  destruct l as [|b l]; [done|].
  apply Forall_cons in Hvalid as [Ha Hvalid].
  pose proof Hvalid as [Hb _]%Forall_cons.
  replace (length (a :: b :: l) - 1)%nat with (S (length l)) by (simpl; lia).
  cbn [seq weekly_streak_loop].
  rewrite fmap_app, !fmap_cons.
  rewrite <- (length_fmap bucket_key pre).
  rewrite getitem_middle, getitem_middle_next. cbn [mbind result_bind].
  rewrite !unpack_bucket_key. cbn [mbind result_bind].
  rewrite run_from_cons.
  destruct (decide (zfill 4 a.1 = zfill 4 b.1)) as [Hy|Hy].
  - rewrite !int_week by done. cbn [mbind result_bind].
    apply year_text_eq in Hy; [|done..].
    destruct (decide (a.2 - b.2 = 1)) as [Hw|Hw].
    + rewrite decide_True by done.
      specialize (IH (pre ++ [a]) (streak + 1) Hvalid).
      rewrite <- app_assoc, length_app in IH. simpl in IH.
      replace (length pre + 1)%nat with (S (length pre)) in IH by lia.
      replace (length l - 0)%nat with (length l) in IH by lia.
      rewrite fmap_app, !fmap_cons in IH. rewrite length_fmap. exact IH.
    + rewrite decide_False; [done|]. by intros [_ ?].
  - rewrite decide_False; [done|]. intros [? _].
    by apply Hy, year_text_eq.
Qed.

Lemma buckets_desc_nonempty completions b :
  completions ≠ [] → buckets_desc completions b → b ≠ [].
Proof.
  intros Hne [_ Hb] ->. destruct completions as [|c l]; [done|].
  assert (bucket (dt_date c) ∈ []) as Hin.
  { apply Hb. exists (dt_date c). split; [left|done]. }
  by apply elem_of_nil in Hin.
Qed.

(** The weekly branch, in terms of the calendar date set and the
    buckets. *)
Lemma calculate_streak_weekly today completions schedule newest rest b :
  schedule ≠ "daily" →
  Forall (λ c, valid_date (dt_date c)) completions →
  dates_desc completions (newest :: rest) →
  buckets_desc completions b →
  calculate_streak today completions schedule
  = if decide (today - newest > 7) then Ok 0
    else Ok (run_from week_step b 1).
Proof.
  intros Hweekly Hvalid Hu Hb. unfold calculate_streak.
  rewrite decide_False by (by eapply dates_desc_nonempty).
  rewrite (unique_dates_desc _ _ Hu). rewrite decide_False by done.
  cbn [getitem lookup list_lookup mbind result_bind].
  destruct (decide (today - newest > 7)); [done|].
  rewrite (week_list_desc _ _ _ Hvalid Hu Hb).
  rewrite length_fmap. apply (weekly_streak_loop_run [] b 1).
  destruct Hb as [_ Hb]. apply Forall_forall. intros p Hp.
  apply Hb in Hp as (d & Hd & ->). apply bucket_valid.
  unfold completion_dates in Hd.
  apply list_elem_of_fmap in Hd as (c & -> & Hc).
  rewrite Forall_forall in Hvalid. by apply Hvalid.
Qed.



Lemma buckets_desc_check completions b :
  StronglySorted bucket_newer b →
  Forall (λ p, p ∈ bucket <$> completion_dates completions) b →
  Forall (λ p, p ∈ b) (bucket <$> completion_dates completions) →
  buckets_desc completions b.
Proof.
  intros Hs H1 H2. split; [done|]. rewrite Forall_forall in H1, H2.
  intros p. split.
  - intros Hp. apply H1, list_elem_of_fmap in Hp as (d & -> & Hd). eauto.
  - intros (d & Hd & ->). apply H2, list_elem_of_fmap. eauto.
Qed.


(* ===================================================================== *)
(** * The longest streak never raises *)
(* ===================================================================== *)

Lemma int_week_text w : ∃ v, int (zfill 2 w) = Ok v.
Proof. eexists. apply int_zfill. lia. Qed.


Lemma Forall_seq_from_1 n : Forall (λ i, 1 ≤ i < S n)%nat (seq 1 n).
Proof. apply Forall_forall. intros i Hi. apply elem_of_seq in Hi. lia. Qed.




(* ===================================================================== *)
(** * Longest streak across habits *)
(* ===================================================================== *)

Lemma Habit_init_row row :
  schedule row = "daily" ∨ schedule row = "weekly" →
  Habit_init (name row) (description row) (schedule row) (created_on row)
  = Ok row.
Proof.
  intros Hs. unfold Habit_init. rewrite bool_decide_eq_false_2.
  - by destruct row.
  - intros [? ?]. by destruct Hs.
Qed.

(** On a well-formed database the manager returns the rows as habits. *)
Lemma for_each_Habit_init rows acc :
  Forall (λ row, schedule row = "daily" ∨ schedule row = "weekly") rows →
  for_each (λ habits row,
              h ← Habit_init (name row) (description row) (schedule row)
                    (created_on row);
              Ok (habits ++ [h])) acc rows
  = Ok (acc ++ rows).
Proof.
  revert acc. induction rows as [|row rows IH]; intros acc Hwf;
    cbn [for_each].
  - by rewrite app_nil_r.
  - apply Forall_cons in Hwf as [Hrow Hwf].
    rewrite Habit_init_row by done. cbn [mbind result_bind].
    rewrite IH by done. by rewrite <- app_assoc.
Qed.

Lemma get_all_habits_wf db :
  wf_database db → get_all_habits db = Ok (habits_table db).
Proof. intros Hwf. by apply (for_each_Habit_init _ []). Qed.











Lemma find_struggling_missed_witness :
  let habits := [mkHabit "Run" "" "daily" (Datetime 80 0);
                 mkHabit "Review" "" "weekly" (Datetime 80 0)] in
  let all_completions : gmap string (list datetime) :=
    {["Run" := [Datetime 99 0; Datetime 95 0; Datetime 91 0; Datetime 50 0]]} in
  let ws := (period_window 100 (Some 91) (Some 100)).1 in
  let we := (period_window 100 (Some 91) (Some 100)).2 in
  ∃ results,
    Forall2 (λ h row,
               row.1 = name h ∧ 0 ≤ row.2 ∧
               ∀ c, cadence_of (schedule h) = Some c →
                    row.2 = missed c ws we
                              (completions_of all_completions (name h)))
            habits results ∧
    find_struggling_habits 100 habits all_completions (Some 91) (Some 100)
    ≡ₚ results.
Proof.
  intros habits all_completions.
  exact (find_struggling_missed 100 habits all_completions (Some 91)
           (Some 100)).
Defined.


(* ===================================================================== *)
(** * Worked examples *)
(* ===================================================================== *)

(** Today is 2023-01-25 (ordinal 738545), a Wednesday. *)

(** Completions today, yesterday and the day before: a streak of 3. *)
Example daily_three_in_a_row :
  calculate_streak 738545
    [Datetime 738545 0; Datetime 738544 0; Datetime 738543 0] "daily" = Ok 3.
Proof. by vm_compute. Qed.

(** A gap at yesterday: only today counts. *)
Example daily_gap_yesterday :
  calculate_streak 738545 [Datetime 738545 0; Datetime 738543 0] "daily"
  = Ok 1.
Proof. by vm_compute. Qed.

(** The last completion five days ago: the streak has lapsed. *)
Example daily_lapsed :
  calculate_streak 738545
    [Datetime 738540 0; Datetime 738539 0; Datetime 738538 0] "daily" = Ok 0.
Proof. by vm_compute. Qed.

(** Two runs, of 3 and of 5 days: the longest streak is 5. *)
Example longest_of_two_runs :
  get_longest_streak_for_habit (mkHabit "Test" "" "daily" (Datetime 738000 0))
    ((λ d, Datetime d 0) <$> [738521; 738522; 738523;
                              738531; 738532; 738533; 738534; 738535])
  = Ok 5.
Proof. by vm_compute. Qed.

(** Four Mondays in a row, 2023-01-02 .. 2023-01-23, are the weeks
    2023-01 .. 2023-04. *)
Example weekly_four_in_a_row :
  strftime_Y_W 738522 = "2023-01" ∧
  calculate_streak 738545
    ((λ d, Datetime d 0) <$> [738522; 738529; 738536; 738543]) "weekly"
  = Ok 4.
Proof. by vm_compute. Qed.

(** 2023-01-01 is a Sunday, in week 0 of 2023; the day before is in week 52
    of 2022, and the weekly streak does not continue across the years. *)
Example weekly_year_boundary :
  strftime_Y_W 738521 = "2023-00" ∧ strftime_Y_W 738520 = "2022-52" ∧
  calculate_streak 738522
    ((λ d, Datetime d 0) <$> [738521; 738520]) "weekly" = Ok 1.
Proof. by vm_compute. Qed.

(** A ten-day window: 3 completions against 10 expected are 7 missed, full
    coverage is 0 missed, and the rows come out by missed count. *)
Example struggling_ten_days :
  find_struggling_habits 738545
    [mkHabit "Full" "" "daily" (Datetime 738000 0);
     mkHabit "Sparse" "" "daily" (Datetime 738000 0)]
    (<["Full" := (λ d, Datetime d 0) <$>
                   [738545; 738544; 738543; 738542; 738541;
                    738540; 738539; 738538; 738537; 738536]]>
       {["Sparse" := (λ d, Datetime d 0) <$> [738544; 738540; 738536]]})
    (Some 738536) (Some 738545)
  = [("Sparse", 7); ("Full", 0)].
Proof. by vm_compute. Qed.

(** Two habits tied at a longest streak of 3 are both reported. *)
Example longest_streak_tie :
  view_longest_streak_all
    (mkDatabase
       [mkHabit "Run" "" "daily" (Datetime 738500 0);
        mkHabit "Read" "" "daily" (Datetime 738499 0)]
       [("Read", Datetime 738534 0); ("Read", Datetime 738533 0);
        ("Read", Datetime 738532 0); ("Run", Datetime 738524 0);
        ("Run", Datetime 738523 0); ("Run", Datetime 738522 0)])
  = Ok "Longest streak: 3 completions, shared by: Run (daily), Read (daily)".
Proof. by vm_compute. Qed.

(* ===================================================================== *)
(** * The streak functions return, within bounds *)
(* ===================================================================== *)

Lemma length_unique_le ds : (length (unique ds) ≤ length ds)%nat.
Proof.
  apply submseteq_length, NoDup_submseteq; [apply unique_NoDup|].
  intros d. by rewrite elem_of_unique.
Qed.

Lemma length_keys_le u : (length (keys (group_by_week u)) ≤ length u)%nat.
Proof.
  rewrite <- (length_fmap strftime_Y_W u).
  apply submseteq_length, NoDup_submseteq; [apply keys_NoDup|].
  intros k (d & Hd & ->)%elem_of_keys_group_by_week.
  apply list_elem_of_fmap. by exists d.
Qed.

Lemma run_from_upper {A} (step : A → A → Prop)
    `{∀ a b, Decision (step a b)} l streak :
  l ≠ [] → run_from step l streak ≤ streak + Z.of_nat (length l) - 1.
Proof.
  revert streak. induction l as [|a l IH]; intros streak Hne; [done|].
  destruct l as [|b l]; [simpl; lia|].
  rewrite run_from_cons. destruct (decide (step a b)).
  - specialize (IH (streak + 1) ltac:(done)). simpl in *. lia.
  - simpl. lia.
Qed.

(** The indexed loop of the weekly branch returns for every list of week
    texts, and adds at most one per index. *)
Lemma weekly_streak_loop_total (week_list : list string) idxs streak :
  (∀ k, k ∈ week_list → ∃ p, k = bucket_key p) →
  Forall (λ i, i + 1 < length week_list)%nat idxs →
  ∃ r, weekly_streak_loop week_list idxs streak = Ok r ∧
       streak ≤ r ≤ streak + Z.of_nat (length idxs).
Proof.
  intros Hkeys. revert streak.
  induction idxs as [|i idxs IH]; intros streak Hidx.
  { exists streak. simpl. split; [done|lia]. }
  apply Forall_cons in Hidx as [Hi Hidx].
  destruct (lookup_lt_is_Some_2 week_list i) as [k1 Hk1]; [lia|].
  destruct (lookup_lt_is_Some_2 week_list (i + 1)) as [k2 Hk2]; [lia|].
  destruct (Hkeys k1) as [p1 ->]; [by eapply list_elem_of_lookup_2|].
  destruct (Hkeys k2) as [p2 ->]; [by eapply list_elem_of_lookup_2|].
  cbn [weekly_streak_loop].
  rewrite (getitem_Some _ _ _ Hk1), (getitem_Some _ _ _ Hk2).
  cbn [mbind result_bind]. rewrite !unpack_bucket_key.
  cbn [mbind result_bind].
  destruct (int_week_text p1.2) as [w1 ->].
  destruct (int_week_text p2.2) as [w2 ->].
  cbn [mbind result_bind].
  destruct (decide (zfill 4 p1.1 = zfill 4 p2.1));
    [destruct (decide (w1 - w2 = 1))|].
  - destruct (IH (streak + 1) Hidx) as (r & Hr & Hle).
    exists r. split; [done|]. simpl. lia.
  - exists streak. split; [done|]. simpl. lia.
  - exists streak. split; [done|]. simpl. lia.
Qed.

Lemma Forall_seq_pairs n : Forall (λ i, i + 1 < S n)%nat (seq 0 n).
Proof. apply Forall_forall. intros i Hi. apply elem_of_seq in Hi. lia. Qed.

Lemma keys_are_bucket_keys u k :
  k ∈ keys (group_by_week u) → ∃ p, k = bucket_key p.
Proof.
  intros (d & _ & ->)%elem_of_keys_group_by_week. by exists (bucket d).
Qed.

(** X1. The current streak never raises: for every schedule text, every
    day and every completion list the call returns an integer between 0 and
    the number of completions. *)
Theorem calculate_streak_range today completions schedule :
  ∃ v, calculate_streak today completions schedule = Ok v ∧
       0 ≤ v ≤ Z.of_nat (length completions).
Proof.
  unfold calculate_streak.
  destruct (decide (length completions = 0%nat)); [exists 0; split; [done|lia]|].
  pose proof (length_unique_le (dt_date <$> completions)) as Hlen.
  rewrite length_fmap in Hlen.
  set (l := sort _ (unique _)).
  assert (length l = length (unique (dt_date <$> completions))) as Hl
    by apply sort_length.
  destruct l as [|newest rest] eqn:Hlist.
  { exfalso. symmetry in Hl. apply nil_length_inv in Hl.
    apply unique_nonempty in Hl; [done|]. by destruct completions. }
  cbn [getitem lookup list_lookup mbind result_bind].
  destruct (decide (schedule = "daily")).
  - destruct (decide (newest < today - 1)); [exists 0; split; [done|lia]|].
    eexists. split; [apply (daily_streak_loop_run [] (newest :: rest) 1)|].
    pose proof (run_from_lower day_step (newest :: rest) 1).
    pose proof (run_from_upper day_step (newest :: rest) 1 ltac:(done)).
    lia.
  - destruct (decide (today - newest > 7)); [exists 0; split; [done|lia]|].
    set (week_list := sort _ (keys _)).
    pose proof (length_keys_le (newest :: rest)) as Hkeys.
    assert (length week_list = length (keys (group_by_week (newest :: rest))))
      as Hwl by apply sort_length.
    destruct (weekly_streak_loop_total week_list
                (seq 0 (length week_list - 1)) 1) as (r & Hr & Hle).
    + intros k Hk. unfold week_list in Hk. rewrite elem_of_sort in Hk.
      by eapply keys_are_bucket_keys.
    + destruct week_list as [|k ks]; [constructor|].
      replace (length (k :: ks) - 1)%nat with (length ks) by (simpl; lia).
      apply Forall_seq_pairs.
    + exists r. split; [done|]. rewrite length_seq in Hle. lia.
Qed.

(** The scan never exceeds the larger of its starting maximum and its
    starting counter plus the number of pairs. *)
Lemma longest_step_upper {A} (step : A → A → Prop)
    `{∀ a b, Decision (step a b)} st ps :
  1 ≤ st.2 →
  (foldl (longest_step step) st ps).1
  ≤ Z.max st.1 (st.2 + Z.of_nat (length ps)).
Proof.
  revert st. induction ps as [|p ps IH]; intros [longest current] Hc;
    [simpl; lia|].
  cbn [foldl]. cbn [fst snd] in Hc.
  destruct (longest_step step (longest, current) p) as [longest' current']
    eqn:Hstep.
  assert (longest' ≤ Z.max longest (current + 1) ∧
          1 ≤ current' ≤ current + 1) as Hst.
  { unfold longest_step in Hstep. cbn [fst snd] in Hstep.
    destruct (decide (step p.2 p.1)); [|simplify_eq; lia].
    destruct (decide (current + 1 > longest)); simplify_eq; lia. }
  specialize (IH (longest', current') ltac:(cbn [snd]; lia)).
  revert IH. cbn [fst snd length].
  generalize (foldl (longest_step step) (longest', current') ps).1.
  intros v. lia.
Qed.

Lemma adjacent_length {A} (l : list A) :
  length (adjacent l) = (length l - 1)%nat.
Proof.
  unfold adjacent. rewrite length_zip_with.
  destruct l; cbn [tail length]; lia.
Qed.

Lemma weekly_longest_loop_range (week_list : list string) idxs longest current :
  (∀ k, k ∈ week_list → ∃ p, k = bucket_key p) →
  1 ≤ current →
  Forall (λ i, 1 ≤ i < length week_list)%nat idxs →
  ∃ r, weekly_longest_loop week_list idxs longest current = Ok r ∧
       longest ≤ r ≤ Z.max longest (current + Z.of_nat (length idxs)).
Proof.
  intros Hkeys. revert longest current.
  induction idxs as [|i idxs IH]; intros longest current Hc Hidx.
  { exists longest. split; [done|]. simpl. lia. }
  apply Forall_cons in Hidx as [Hi Hidx].
  destruct (lookup_lt_is_Some_2 week_list (i - 1)) as [k1 Hk1]; [lia|].
  destruct (lookup_lt_is_Some_2 week_list i) as [k2 Hk2]; [lia|].
  destruct (Hkeys k1) as [p1 ->]; [by eapply list_elem_of_lookup_2|].
  destruct (Hkeys k2) as [p2 ->]; [by eapply list_elem_of_lookup_2|].
  cbn [weekly_longest_loop].
  rewrite (getitem_Some _ _ _ Hk1), (getitem_Some _ _ _ Hk2).
  cbn [mbind result_bind]. rewrite !unpack_bucket_key.
  cbn [mbind result_bind].
  destruct (int_week_text p1.2) as [w1 ->].
  destruct (int_week_text p2.2) as [w2 ->].
  cbn [mbind result_bind length].
  destruct (decide (zfill 4 p1.1 = zfill 4 p2.1));
    [destruct (decide (w2 - w1 = 1))|].
  - destruct (IH (if decide (current + 1 > longest) then current + 1
                  else longest) (current + 1) ltac:(lia) Hidx)
      as (r & Hr & Hle).
    exists r. split; [done|]. case_decide; lia.
  - destruct (IH longest 1 ltac:(lia) Hidx) as (r & Hr & Hle).
    exists r. split; [done|]. lia.
  - destruct (IH longest 1 ltac:(lia) Hidx) as (r & Hr & Hle).
    exists r. split; [done|]. lia.
Qed.

(** X2. The longest streak never raises: it is 0 without completions and
    otherwise an integer between 1 and the number of completions, for every
    habit. *)
Theorem get_longest_streak_range habit completions :
  ∃ v, get_longest_streak_for_habit habit completions = Ok v ∧
       Z.min 1 (Z.of_nat (length completions)) ≤ v
       ≤ Z.of_nat (length completions).
Proof.
  unfold get_longest_streak_for_habit.
  destruct (decide (length completions = 0%nat)) as [Hlen0|Hlen0].
  { exists 0. split; [done|]. rewrite Hlen0. simpl. lia. }
  pose proof (length_unique_le (dt_date <$> completions)) as Hlen.
  rewrite length_fmap in Hlen.
  set (l := sort _ (unique _)).
  assert (length l = length (unique (dt_date <$> completions))) as Hl
    by apply sort_length.
  destruct (decide (length l = 1%nat)); [exists 1; split; [done|lia]|].
  destruct (decide (schedule habit = "daily")).
  - destruct l as [|x l'] eqn:Hlist; [exists 1; split; [done|lia]|].
    replace (length (x :: l') - 1)%nat with (length l') by (simpl; lia).
    eexists. split; [apply (daily_longest_loop_scan [] x l' 1 1)|].
    pose proof (longest_step_lower day_step (1, 1) (adjacent (x :: l'))).
    pose proof (longest_step_upper day_step (1, 1) (adjacent (x :: l'))
                  ltac:(done)) as Hup.
    rewrite adjacent_length in Hup. cbn [fst snd length] in *. lia.
  - set (week_list := sort String.leb (keys (group_by_week l))).
    pose proof (length_keys_le l) as Hkeys.
    assert (length week_list = length (keys (group_by_week l))) as Hwl
      by apply sort_length.
    destruct (decide (length week_list = 1%nat));
      [exists 1; split; [done|lia]|].
    destruct (weekly_longest_loop_range week_list
                (seq 1 (length week_list - 1)) 1 1) as (r & Hr & Hle).
    + intros k Hk. unfold week_list in Hk. rewrite elem_of_sort in Hk.
      by eapply keys_are_bucket_keys.
    + done.
    + destruct week_list as [|k ks]; [constructor|].
      replace (length (k :: ks) - 1)%nat with (length ks) by (simpl; lia).
      apply Forall_seq_from_1.
    + exists r. split; [done|]. rewrite length_seq in Hle. lia.
Qed.

(* ===================================================================== *)
(** * The order of the completions does not matter *)
(* ===================================================================== *)

Lemma unique_Permutation ds1 ds2 : ds1 ≡ₚ ds2 → unique ds1 = unique ds2.
Proof.
  intros Hperm. unfold unique. f_equal. apply set_eq. intros d.
  by rewrite !elem_of_list_to_set, Hperm.
Qed.

(** X3. Both streaks of a habit are unchanged when its completions are
    handed over in another order. *)
Theorem streaks_permutation_invariant today habit completions1 completions2 :
  completions1 ≡ₚ completions2 →
  get_current_streak_for_habit today habit completions1
  = get_current_streak_for_habit today habit completions2 ∧
  get_longest_streak_for_habit habit completions1
  = get_longest_streak_for_habit habit completions2.
Proof.
  intros Hperm.
  assert (length completions1 = 0%nat ↔ length completions2 = 0%nat) as Hlen
    by (by rewrite Hperm).
  assert (unique (dt_date <$> completions1)
          = unique (dt_date <$> completions2)) as Hset.
  { apply unique_Permutation. by rewrite Hperm. }
  split.
  - by apply calculate_streak_unique.
  - by apply get_longest_streak_unique.
Qed.

Lemma streaks_permutation_invariant_witness :
  let habit := mkHabit "Read" "" "daily" (Datetime 90 0) in
  let c1 := Datetime 100 0 in
  let c2 := Datetime 99 0 in
  let rest := [Datetime 97 0] in
  c2 :: c1 :: rest ≡ₚ c1 :: c2 :: rest ∧
  get_current_streak_for_habit 100 habit (c2 :: c1 :: rest)
  = get_current_streak_for_habit 100 habit (c1 :: c2 :: rest) ∧
  get_longest_streak_for_habit habit (c2 :: c1 :: rest)
  = get_longest_streak_for_habit habit (c1 :: c2 :: rest).
Proof.
  intros habit c1 c2 rest.
  assert (c2 :: c1 :: rest ≡ₚ c1 :: c2 :: rest) as Hperm
    by apply Permutation_swap.
  split; [exact Hperm|].
  exact (streaks_permutation_invariant 100 habit _ _ Hperm).
Defined.

(* ===================================================================== *)
(** * Filter by schedule, valid schedules *)
(* ===================================================================== *)

Lemma matching_loop_filter (habits : list Habit) schedule acc :
  foldl (λ matching h,
           if decide (habit.schedule h = schedule)
           then matching ++ [h] else matching) acc habits
  = acc ++ filter (λ h, habit.schedule h = schedule) habits.
Proof.
  revert acc. induction habits as [|h habits IH]; intros acc; simpl.
  { by rewrite app_nil_r. }
  rewrite IH, filter_cons.
  destruct (decide (habit.schedule h = schedule)); [|done].
  by rewrite <- app_assoc.
Qed.

(** X4. For the schedule daily or weekly the filter prints nothing and
    returns exactly the habits with that schedule, in the order of the
    input list: every returned habit has the schedule, and every habit of
    the input with the schedule is returned. *)
Theorem get_habits_by_periodicity_filter habits schedule :
  schedule = "daily" ∨ schedule = "weekly" →
  get_habits_by_periodicity habits schedule
  = ([], Ok (filter (λ h, habit.schedule h = schedule) habits)).
Proof.
  intros Hvalid. unfold get_habits_by_periodicity.
  rewrite decide_False by (intros [? ?]; by destruct Hvalid).
  by rewrite (matching_loop_filter habits schedule []).
Qed.

Lemma get_habits_by_periodicity_filter_witness :
  let habits := [mkHabit "Run" "" "daily" (Datetime 80 0);
                 mkHabit "Review" "" "weekly" (Datetime 81 0);
                 mkHabit "Read" "" "daily" (Datetime 82 0)] in
  ("weekly" = "daily" ∨ "weekly" = "weekly") ∧
  get_habits_by_periodicity habits "weekly"
  = ([], Ok (filter (λ h, habit.schedule h = "weekly") habits)).
Proof.
  intros habits.
  assert ("weekly" = "daily" ∨ "weekly" = "weekly") as Hvalid by (by right).
  split; [exact Hvalid|].
  exact (get_habits_by_periodicity_filter habits "weekly" Hvalid).
Defined.

(** X5. When every habit has the schedule daily or weekly, the daily and
    the weekly selection together are the whole list: no habit is lost and
    none is returned twice. *)
Theorem get_habits_by_periodicity_partition habits :
  Forall (λ h, schedule h = "daily" ∨ schedule h = "weekly") habits →
  ∃ daily weekly,
    get_habits_by_periodicity habits "daily" = ([], Ok daily) ∧
    get_habits_by_periodicity habits "weekly" = ([], Ok weekly) ∧
    daily ++ weekly ≡ₚ habits.
Proof.
  intros Hvalid.
  exists (filter (λ h, schedule h = "daily") habits),
         (filter (λ h, schedule h = "weekly") habits).
  unfold get_habits_by_periodicity.
  rewrite !decide_False by (intros [? ?]; done).
  rewrite !(matching_loop_filter habits _ []).
  split; [done|]. split; [done|].
  induction Hvalid as [|h habits Hh _ IH]; [done|].
  rewrite !filter_cons. destruct Hh as [Hh|Hh]; rewrite Hh.
  - rewrite decide_True, decide_False by done. simpl. by f_equiv.
  - rewrite decide_False, decide_True by done.
    rewrite <- Permutation_middle. by f_equiv.
Qed.

Lemma get_habits_by_periodicity_partition_witness :
  let habits := [mkHabit "Run" "" "daily" (Datetime 80 0);
                 mkHabit "Review" "" "weekly" (Datetime 81 0);
                 mkHabit "Read" "" "daily" (Datetime 82 0)] in
  Forall (λ h, schedule h = "daily" ∨ schedule h = "weekly") habits ∧
  ∃ daily weekly,
    get_habits_by_periodicity habits "daily" = ([], Ok daily) ∧
    get_habits_by_periodicity habits "weekly" = ([], Ok weekly) ∧
    daily ++ weekly ≡ₚ habits.
Proof.
  intros habits.
  assert (Forall (λ h, schedule h = "daily" ∨ schedule h = "weekly") habits)
    as Hvalid by compute_done.
  split; [exact Hvalid|].
  exact (get_habits_by_periodicity_partition habits Hvalid).
Defined.

(* ===================================================================== *)
(** * Adherence: bounds, full coverage, completions outside the window *)
(* ===================================================================== *)

Lemma actual_nonneg ws we completions : 0 ≤ actual ws we completions.
Proof. unfold actual. lia. Qed.

Lemma expected_of_schedule_le schedule days :
  1 ≤ days → expected_of_schedule schedule days ≤ days.
Proof.
  intros Hdays. unfold expected_of_schedule.
  destruct (decide (schedule = "daily")); [lia|].
  Z.div_mod_to_equations. lia.
Qed.

(** X6. Over a window whose start is not after its end, no habit is
    reported with a negative missed count or with more missed completions
    than the window has days. *)
Theorem find_struggling_missed_bound today habits all_completions ps pe :
  let ws := (period_window today ps pe).1 in
  let we := (period_window today ps pe).2 in
  ws ≤ we →
  Forall (λ row, 0 ≤ row.2 ≤ days_in_window ws we)
    (find_struggling_habits today habits all_completions ps pe).
Proof.
  intros ws we Hwin. rewrite find_struggling_habits_rows. fold ws we.
  apply Forall_forall. intros row Hrow.
  rewrite elem_of_sort in Hrow. apply list_elem_of_fmap in Hrow as (h & -> & _).
  unfold row_of. cbn [snd].
  pose proof (actual_nonneg ws we (completions_of all_completions (name h))).
  pose proof (expected_of_schedule_le (schedule h) (days_in_window ws we)
                ltac:(unfold days_in_window; lia)).
  unfold days_in_window in *. lia.
Qed.

Lemma find_struggling_missed_bound_witness :
  let habits := [mkHabit "Run" "" "daily" (Datetime 80 0);
                 mkHabit "Review" "" "weekly" (Datetime 80 0)] in
  let all_completions : gmap string (list datetime) :=
    {["Run" := [Datetime 99 0; Datetime 95 0]]} in
  let ws := (period_window 100 None (Some 100)).1 in
  let we := (period_window 100 None (Some 100)).2 in
  ws ≤ we ∧
  Forall (λ row, 0 ≤ row.2 ≤ days_in_window ws we)
    (find_struggling_habits 100 habits all_completions None (Some 100)).
Proof.
  intros habits all_completions ws we.
  assert (ws ≤ we) as Hwin by (unfold ws, we; simpl; lia).
  split; [exact Hwin|].
  exact (find_struggling_missed_bound 100 habits all_completions None
           (Some 100) Hwin).
Defined.

(** A completion list that covers every day of the window has at least as
    many completions in the window as the window has days. *)
Lemma actual_full_coverage ws we completions :
  (∀ d, ws ≤ d ≤ we → d ∈ completion_dates completions) →
  days_in_window ws we ≤ actual ws we completions.
Proof.
  intros Hcover. unfold days_in_window, actual.
  assert (length (seqZ ws (we - ws + 1))
          ≤ length (filter (in_window ws we) completions))%nat as Hlen.
  { rewrite <- (length_fmap dt_date (filter _ _)).
    apply submseteq_length, NoDup_submseteq; [apply NoDup_seqZ|].
    intros d Hd. apply elem_of_seqZ in Hd.
    pose proof (Hcover d ltac:(lia)) as Hin. unfold completion_dates in Hin.
    apply list_elem_of_fmap in Hin as (c & -> & Hc).
    apply list_elem_of_fmap. exists c. split; [done|].
    apply list_elem_of_filter. split; [|done]. unfold in_window. lia. }
  rewrite length_seqZ in Hlen. lia.
Qed.

(** X7. A daily habit with a completion on every day of the window is
    reported with 0 missed completions. *)
Theorem find_struggling_full_coverage today habits all_completions ps pe h :
  let ws := (period_window today ps pe).1 in
  let we := (period_window today ps pe).2 in
  h ∈ habits →
  schedule h = "daily" →
  (∀ d, ws ≤ d ≤ we →
        d ∈ completion_dates (completions_of all_completions (name h))) →
  (name h, 0) ∈ find_struggling_habits today habits all_completions ps pe.
Proof.
  intros ws we Hin Hdaily Hcover.
  rewrite find_struggling_habits_rows, elem_of_sort. fold ws we.
  apply list_elem_of_fmap. exists h. split; [|done].
  unfold row_of. f_equal. unfold expected_of_schedule.
  rewrite decide_True by done.
  pose proof (actual_full_coverage ws we _ Hcover). lia.
Qed.

Lemma find_struggling_full_coverage_witness :
  let h := mkHabit "Run" "" "daily" (Datetime 80 0) in
  let habits := [mkHabit "Review" "" "weekly" (Datetime 80 0); h] in
  let all_completions : gmap string (list datetime) :=
    {["Run" := [Datetime 100 0; Datetime 98 0; Datetime 99 0;
                Datetime 99 7; Datetime 90 0]]} in
  let ws := (period_window 100 (Some 98) (Some 100)).1 in
  let we := (period_window 100 (Some 98) (Some 100)).2 in
  h ∈ habits ∧
  schedule h = "daily" ∧
  (∀ d, ws ≤ d ≤ we →
        d ∈ completion_dates (completions_of all_completions (name h))) ∧
  (name h, 0)
    ∈ find_struggling_habits 100 habits all_completions (Some 98) (Some 100).
Proof.
  intros h habits all_completions ws we.
  assert (h ∈ habits) as Hin by (right; left).
  assert (schedule h = "daily") as Hdaily by reflexivity.
  assert (∀ d, ws ≤ d ≤ we →
            d ∈ completion_dates (completions_of all_completions (name h)))
    as Hcover.
  { intros d Hd. unfold ws, we in Hd. simpl in Hd.
    change (d ∈ [100; 98; 99; 99; 90]). rewrite !elem_of_cons. lia. }
  split; [exact Hin|]. split; [exact Hdaily|]. split; [exact Hcover|].
  exact (find_struggling_full_coverage 100 habits all_completions (Some 98)
           (Some 100) h Hin Hdaily Hcover).
Defined.

(** X8. A completion dated outside the window does not change the report:
    recording it for any habit name leaves every row as it was. *)
Theorem find_struggling_outside_window today habits all_completions ps pe
    habit_name completions c :
  let ws := (period_window today ps pe).1 in
  let we := (period_window today ps pe).2 in
  dt_date c < ws ∨ we < dt_date c →
  find_struggling_habits today habits
    (<[habit_name := completions ++ [c]]> all_completions) ps pe
  = find_struggling_habits today habits
      (<[habit_name := completions]> all_completions) ps pe.
Proof.
  intros ws we Hout. rewrite !find_struggling_habits_rows. fold ws we.
  f_equal. apply list_fmap_ext. intros _ h _. unfold row_of.
  assert (actual ws we
            (completions_of (<[habit_name := completions ++ [c]]>
                               all_completions) (name h))
          = actual ws we
              (completions_of (<[habit_name := completions]> all_completions)
                 (name h))) as ->; [|done].
  unfold completions_of.
  destruct (decide (habit_name = name h)) as [->|Hne].
  - rewrite !lookup_insert_eq. cbn [default from_option id]. unfold actual.
    rewrite filter_app, filter_cons, decide_False, filter_nil, app_nil_r;
      [done|]. unfold in_window. lia.
  - by rewrite !lookup_insert_ne.
Qed.

Lemma find_struggling_outside_window_witness :
  let habits := [mkHabit "Run" "" "daily" (Datetime 80 0)] in
  let all_completions : gmap string (list datetime) := ∅ in
  let ws := (period_window 100 (Some 91) (Some 100)).1 in
  let we := (period_window 100 (Some 91) (Some 100)).2 in
  let c := Datetime 90 0 in
  (dt_date c < ws ∨ we < dt_date c) ∧
  find_struggling_habits 100 habits
    (<["Run" := [Datetime 95 0] ++ [c]]> all_completions)
    (Some 91) (Some 100)
  = find_struggling_habits 100 habits
      (<["Run" := [Datetime 95 0]]> all_completions) (Some 91) (Some 100).
Proof.
  intros habits all_completions ws we c.
  assert (dt_date c < ws ∨ we < dt_date c) as Hout
    by (left; unfold ws, c; simpl; lia).
  split; [exact Hout|].
  exact (find_struggling_outside_window 100 habits all_completions (Some 91)
           (Some 100) "Run" [Datetime 95 0] c Hout).
Defined.

(* ===================================================================== *)
(** * The manager: lookups by name *)
(* ===================================================================== *)

Lemma get_habit_db_None db n :
  ¬ Exists (λ row, name row = n) (habits_table db) → get_habit_db db n = None.
Proof.
  intros Hno. unfold get_habit_db.
  destruct (List.find _ _) as [row|] eqn:Hfind; [|done].
  apply find_some in Hfind as [Hrow Hname]. exfalso. apply Hno.
  apply Exists_exists. exists row. split; [by apply list_elem_of_In|].
  by apply bool_decide_eq_true in Hname.
Qed.

Lemma get_habit_db_Some db n :
  Exists (λ row, name row = n) (habits_table db) →
  ∃ row, get_habit_db db n = Some row ∧ row ∈ habits_table db ∧ name row = n.
Proof.
  intros (row0 & Hrow0 & Hname0)%Exists_exists. unfold get_habit_db.
  destruct (List.find _ _) as [row|] eqn:Hfind.
  - apply find_some in Hfind as [Hrow Hname]. exists row.
    split; [done|]. split; [by apply list_elem_of_In|].
    by apply bool_decide_eq_true in Hname.
  - apply list_elem_of_In in Hrow0.
    pose proof (find_none _ _ Hfind row0 Hrow0) as Hnone. simpl in Hnone.
    by rewrite bool_decide_eq_true_2 in Hnone.
Qed.

(** X9. On a well-formed database, asking the manager for the completions
    of a name returns the stored completions of that name when a habit with
    it exists, and raises [HabitNotFoundError] otherwise. *)
Theorem get_completions_found_or_not db n :
  wf_database db →
  manager.get_completions db n
  = if decide (Exists (λ row, name row = n) (habits_table db))
    then Ok (get_completions_db db n)
    else Raise (HabitNotFoundError ("Habit '" +:+ n +:+ "' not found")).
Proof.
  intros Hwf. unfold manager.get_completions, get_habit.
  destruct (decide (Exists _ _)) as [Hex|Hno].
  - destruct (get_habit_db_Some db n Hex) as (row & -> & Hrow & _).
    unfold wf_database in Hwf. rewrite Forall_forall in Hwf.
    by rewrite Habit_init_row by (by apply Hwf).
  - by rewrite get_habit_db_None.
Qed.

Lemma get_completions_found_or_not_witness :
  let db := mkDatabase
    [mkHabit "Run" "" "daily" (Datetime 738500 0)]
    [("Run", Datetime 738524 0); ("Run", Datetime 738523 0)] in
  wf_database db ∧
  manager.get_completions db "Run"
  = Ok [Datetime 738524 0; Datetime 738523 0] ∧
  manager.get_completions db "Swim"
  = Raise (HabitNotFoundError "Habit 'Swim' not found").
Proof.
  intros db.
  assert (wf_database db) as Hwf by (unfold wf_database; compute_done).
  split; [exact Hwf|]. split.
  - exact (get_completions_found_or_not db "Run" Hwf).
  - exact (get_completions_found_or_not db "Swim" Hwf).
Defined.

(** X10. On a well-formed database whose habit names are unique (the name
    is the primary key), every habit returned by [get_all_habits] is
    returned by [get_habit] for its name. *)
Theorem get_habit_of_all_habits db h :
  wf_database db →
  NoDup (name <$> habits_table db) →
  h ∈ habits_table db →
  ∃ all_habits, get_all_habits db = Ok all_habits ∧ h ∈ all_habits ∧
                get_habit db (name h) = Ok (Some h).
Proof.
  intros Hwf Hnodup Hin. exists (habits_table db).
  split; [by apply get_all_habits_wf|]. split; [done|].
  unfold get_habit.
  destruct (get_habit_db_Some db (name h)) as (row & -> & Hrow & Hname).
  { apply Exists_exists. by exists h. }
  assert (row = h) as ->.
  { apply list_elem_of_lookup in Hrow as [i Hi].
    apply list_elem_of_lookup in Hin as [j Hj].
    assert (i = j) as ->; [|congruence].
    apply (NoDup_lookup _ i j (name h) Hnodup);
      rewrite list_lookup_fmap; [rewrite Hi|rewrite Hj]; simpl; congruence. }
  unfold wf_database in Hwf. rewrite Forall_forall in Hwf.
  by rewrite Habit_init_row by (by apply Hwf).
Qed.

Lemma get_habit_of_all_habits_witness :
  let h := mkHabit "Read" "20 minutes" "daily" (Datetime 738499 0) in
  let db := mkDatabase
    [mkHabit "Run" "" "daily" (Datetime 738500 0); h;
     mkHabit "Review" "" "weekly" (Datetime 738498 0)] [] in
  wf_database db ∧
  NoDup (name <$> habits_table db) ∧
  h ∈ habits_table db ∧
  ∃ all_habits, get_all_habits db = Ok all_habits ∧ h ∈ all_habits ∧
                get_habit db (name h) = Ok (Some h).
Proof.
  intros h db.
  assert (wf_database db) as Hwf by (unfold wf_database; compute_done).
  assert (NoDup (name <$> habits_table db)) as Hnodup by compute_done.
  assert (h ∈ habits_table db) as Hin by (right; left).
  split; [exact Hwf|]. split; [exact Hnodup|]. split; [exact Hin|].
  exact (get_habit_of_all_habits db h Hwf Hnodup Hin).
Defined.

(* ===================================================================== *)
(** * What the longest-streak scan computes *)
(* ===================================================================== *)

Section chain_facts.
Context {A : Type} (step : A → A → Prop).

Lemma chain_nil : chain step [].
Proof. intros i a b Ha. by rewrite lookup_nil in Ha. Qed.

Lemma chain_singleton x : chain step [x].
Proof. intros [|i] a b Ha Hb; simplify_eq/=. Qed.

Lemma chain_snoc r x :
  chain step (r ++ [x]) ↔ chain step r ∧ ∀ y, last r = Some y → step x y.
Proof.
  split.
  - intros Hchain. split.
    + intros i a b Ha Hb. apply (Hchain i); by apply lookup_app_l_Some.
    + intros y Hy. rewrite last_lookup in Hy.
      destruct r as [|z r] using rev_ind; [done|].
      rewrite length_app in Hy. simpl in Hy.
      replace (Init.Nat.pred (length r + 1)) with (length r) in Hy by lia.
      apply (Hchain (length r)).
      * by apply lookup_app_l_Some.
      * rewrite lookup_app_r; rewrite length_app; simpl; [|lia].
        by replace (S (length r) - (length r + 1))%nat with 0%nat by lia.
  - intros [Hchain Hlast] i a b Ha Hb.
    assert (S i < length (r ++ [x]))%nat as Hi
      by (by eapply lookup_lt_Some).
    rewrite length_app in Hi. simpl in Hi.
    rewrite lookup_app_l in Ha by lia.
    destruct (decide (S i < length r)%nat) as [Hlt|Hge].
    + rewrite lookup_app_l in Hb by lia. by apply (Hchain i).
    + rewrite lookup_app_r in Hb by lia.
      replace (S i - length r)%nat with 0%nat in Hb by lia.
      simplify_eq/=. apply Hlast. rewrite last_lookup.
      by replace (Init.Nat.pred (length r)) with i by lia.
Qed.

Lemma suffix_snoc_inv (pre r p : list A) x :
  pre ++ r = p ++ [x] → r = [] ∨ ∃ r', r = r' ++ [x] ∧ pre ++ r' = p.
Proof.
  intros Heq. destruct r as [|z r _] using rev_ind; [by left|].
  right. rewrite app_assoc in Heq. apply app_inj_tail in Heq as [<- ->].
  by exists r.
Qed.

Lemma block_snoc_inv (r p : list A) x :
  block r (p ++ [x]) → block r p ∨ ∃ pre, pre ++ r = p ++ [x].
Proof.
  intros (pre & suf & Heq). destruct suf as [|z suf _] using rev_ind.
  - right. exists pre. by rewrite app_nil_r in Heq.
  - left. rewrite !app_assoc in Heq. apply app_inj_tail in Heq as [-> _].
    exists pre, suf. by rewrite app_assoc.
Qed.

Lemma block_app_r (r p s : list A) : block r p → block r (p ++ s).
Proof.
  intros (pre & suf & ->). exists pre, (suf ++ s). by rewrite <- !app_assoc.
Qed.

Lemma block_suffix (pre r : list A) : block r (pre ++ r).
Proof. exists pre, []. by rewrite app_nil_r. Qed.

Lemma block_length (r l : list A) : block r l → (length r ≤ length l)%nat.
Proof. intros (pre & suf & ->). rewrite !length_app. lia. Qed.

Lemma block_elem_of (r l : list A) x : block r l → x ∈ r → x ∈ l.
Proof. intros (pre & suf & ->) Hx. rewrite !elem_of_app. auto. Qed.

Context `{∀ a b, Decision (step a b)}.

Lemma longest_scan_snoc (p : list A) y x :
  longest_scan step ((p ++ [y]) ++ [x])
  = longest_step step (longest_scan step (p ++ [y])) (y, x).
Proof.
  unfold longest_scan. rewrite <- app_assoc. simpl app.
  by rewrite adjacent_snoc, foldl_app.
Qed.

(** After the scan of a non-empty list the running counter is the length of
    the longest chain that ends the list, and the maximum is the length of
    the longest chain among all blocks of the list. *)
Lemma longest_scan_blocks l :
  l ≠ [] →
  (∃ pre r, l = pre ++ r ∧ r ≠ [] ∧ chain step r ∧
            Z.of_nat (length r) = (longest_scan step l).2) ∧
  (∀ pre r, l = pre ++ r → chain step r →
            Z.of_nat (length r) ≤ (longest_scan step l).2) ∧
  (∃ r, block r l ∧ chain step r ∧
        Z.of_nat (length r) = (longest_scan step l).1) ∧
  (∀ r, block r l → chain step r →
        Z.of_nat (length r) ≤ (longest_scan step l).1).
Proof.
  induction l as [|x l IH] using rev_ind; intros Hnonempty; [done|].
  clear Hnonempty. destruct l as [|y l _] using rev_ind.
  { cbn. split; [|split; [|split]].
    - exists [], [x]. split; [done|]. split; [done|].
      split; [apply chain_singleton|done].
    - intros pre r Heq _. apply (f_equal length) in Heq.
      rewrite length_app in Heq. simpl in Heq. lia.
    - exists [x]. split; [apply (block_suffix [])|].
      split; [apply chain_singleton|done].
    - intros r Hr _. apply block_length in Hr. simpl in Hr. lia. }
  destruct IH as ((pre_c & r_c & Hp & Hne & Hchain_c & Hlen_c)
                  & Hmax_c & (r_l & Hblock_l & Hchain_l & Hlen_l) & Hmax_l);
    [by destruct l|].
  rewrite longest_scan_snoc.
  destruct (longest_scan step (l ++ [y])) as [longest current].
  cbn [fst snd] in *.
  assert (last r_c = Some y) as Hlast_c.
  { apply (f_equal last) in Hp. rewrite last_snoc, last_app in Hp.
    destruct (last r_c) eqn:Hl; [done|].
    apply last_None in Hl. done. }
  assert (Z.of_nat (length r_c) ≤ longest) as Hcl.
  { apply Hmax_l; [|done]. rewrite Hp. apply block_suffix. }
  assert (1 ≤ current) as Hc1 by (destruct r_c; [done|simpl in *; lia]).
  unfold longest_step. cbn [fst snd].
  destruct (decide (step x y)) as [Hstep|Hstep]; cbn [fst snd].
  - split; [|split; [|split]].
    + exists pre_c, (r_c ++ [x]). rewrite Hp, <- app_assoc.
      split; [done|]. split; [by destruct r_c|]. split.
      * apply chain_snoc. split; [done|]. intros z Hz. by simplify_eq.
      * rewrite length_app. simpl. lia.
    + intros pre r Heq Hchain. symmetry in Heq.
      apply suffix_snoc_inv in Heq as [->|(r' & -> & Heq)]; [simpl; lia|].
      apply chain_snoc in Hchain as [Hchain _].
      rewrite length_app. simpl.
      specialize (Hmax_c pre r' (eq_sym Heq) Hchain). lia.
    + destruct (decide (current + 1 > longest)).
      * exists (r_c ++ [x]). split; [|split].
        -- rewrite Hp, <- app_assoc. apply block_suffix.
        -- apply chain_snoc. split; [done|]. intros z Hz. by simplify_eq.
        -- rewrite length_app. simpl. lia.
      * exists r_l. split; [by apply block_app_r|done].
    + intros r Hblock Hchain.
      assert (Z.of_nat (length r) ≤ Z.max longest (current + 1)) as Hle.
      { apply block_snoc_inv in Hblock as [Hblock|[pre Heq]].
        - specialize (Hmax_l r Hblock Hchain). lia.
        - apply suffix_snoc_inv in Heq as [->|(r' & -> & Heq)];
            [simpl; lia|].
          apply chain_snoc in Hchain as [Hchain _].
          rewrite length_app. simpl.
          specialize (Hmax_c pre r' (eq_sym Heq) Hchain). lia. }
      destruct (decide (current + 1 > longest)); lia.
  - assert (∀ pre r, (l ++ [y]) ++ [x] = pre ++ r → chain step r →
                     Z.of_nat (length r) ≤ 1) as Hsuffix.
    { intros pre r Heq Hchain. symmetry in Heq.
      apply suffix_snoc_inv in Heq as [->|(r' & -> & Heq)]; [simpl; lia|].
      apply chain_snoc in Hchain as [_ Hlast].
      destruct r' as [|z r' _] using rev_ind; [simpl; lia|].
      exfalso. apply Hstep, Hlast.
      rewrite app_assoc in Heq. apply app_inj_tail in Heq as [_ ->].
      apply last_snoc. }
    split; [|split; [|split]].
    + exists (l ++ [y]), [x]. split; [done|]. split; [done|].
      split; [apply chain_singleton|done].
    + done.
    + exists r_l. split; [by apply block_app_r|done].
    + intros r Hblock Hchain.
      apply block_snoc_inv in Hblock as [Hblock|[pre Heq]].
      * by apply Hmax_l.
      * specialize (Hsuffix pre r (eq_sym Heq) Hchain). lia.
Qed.
End chain_facts.

(* ===================================================================== *)
(** * Daily streaks as runs of calendar days *)
(* ===================================================================== *)

Lemma StronglySorted_lookup_lt {A} (R : relation A) l i j a b :
  StronglySorted R l → (i < j)%nat →
  l !! i = Some a → l !! j = Some b → R a b.
Proof.
  intros Hs. revert i j. induction Hs as [|x l _ IH Hx]; intros i j Hij Ha Hb.
  { by rewrite lookup_nil in Ha. }
  destruct j as [|j]; [lia|]. destruct i as [|i]; simplify_eq/=.
  - rewrite Forall_forall in Hx. apply Hx. by eapply list_elem_of_lookup_2.
  - apply (IH i j); [lia|done..].
Qed.

(** A chain of one-day steps is a run of consecutive days. *)
Lemma chain_day_seqZ r d :
  chain day_step r → head r = Some d → r = seqZ d (Z.of_nat (length r)).
Proof.
  revert d. induction r as [|a r IH]; intros d Hchain Hhead; [done|].
  cbn [head] in Hhead. simplify_eq. cbn [length].
  rewrite Nat2Z.inj_succ, seqZ_cons, Z.pred_succ by lia. f_equal.
  destruct r as [|b r]; [done|]. apply IH.
  - intros i x y Hx Hy. by apply (Hchain (S i)).
  - cbn [head]. f_equal. specialize (Hchain 0%nat d b eq_refl eq_refl).
    unfold day_step in Hchain. lia.
Qed.

Lemma chain_seqZ d n : chain day_step (seqZ d n).
Proof.
  intros i a b [-> Ha]%lookup_seqZ [-> Hb]%lookup_seqZ. unfold day_step. lia.
Qed.

(** In a strictly increasing list, days that are all present form a
    block. *)
Lemma asc_block_of_days a d (n : nat) :
  StronglySorted (λ x y : Z, x < y) a → (1 ≤ n)%nat →
  (∀ j, 0 ≤ j < Z.of_nat n → d + j ∈ a) →
  block (seqZ d (Z.of_nat n)) a.
Proof.
  intros Hsorted. induction n as [|n IH]; intros Hn Hdays; [lia|].
  destruct n as [|n].
  { specialize (Hdays 0 ltac:(lia)). rewrite Z.add_0_r in Hdays.
    apply list_elem_of_split in Hdays as (l1 & l2 & ->). by exists l1, l2. }
  destruct IH as (pre & suf & Ha); [lia|intros j Hj; apply Hdays; lia|].
  pose proof (Hdays (Z.of_nat (S n)) ltac:(lia)) as Hnext.
  subst a. apply StronglySorted_app in Hsorted as (Hpre & _ & Hrest).
  apply StronglySorted_app in Hrest as (Hmid & _ & Hsuf).
  assert (d + Z.of_nat n ∈ seqZ d (Z.of_nat (S n))) as Hlast
    by (apply elem_of_seqZ; lia).
  rewrite !elem_of_app in Hnext. destruct Hnext as [Hin|[Hin|Hin]].
  - specialize (Hpre _ (d + Z.of_nat n) Hin). rewrite elem_of_app in Hpre.
    specialize (Hpre (or_introl Hlast)). lia.
  - apply elem_of_seqZ in Hin. lia.
  - destruct suf as [|h suf]; [by apply elem_of_nil in Hin|].
    assert (h = d + Z.of_nat (S n)) as ->.
    { specialize (Hmid (d + Z.of_nat n) h Hlast ltac:(left)).
      apply elem_of_cons in Hin as [->|Hin]; [done|].
      apply StronglySorted_inv in Hsuf as [_ Hh].
      rewrite Forall_forall in Hh. specialize (Hh _ Hin). lia. }
    exists pre, suf. rewrite (seqZ_S d (S n)), <- !app_assoc. done.
Qed.

(** The maximum of the scan of a strictly increasing list of days is the
    largest number of consecutive days that are all in the list. *)
Lemma longest_scan_day_runs a :
  StronglySorted (λ x y : Z, x < y) a → a ≠ [] →
  1 ≤ (longest_scan day_step a).1 ∧
  (∃ d, ∀ j, 0 ≤ j < (longest_scan day_step a).1 → d + j ∈ a) ∧
  (∀ d m, (∀ j, 0 ≤ j < m → d + j ∈ a) → m ≤ (longest_scan day_step a).1).
Proof.
  intros Hasc Hne.
  destruct (longest_scan_blocks day_step a Hne)
    as (_ & _ & (r & Hblock & Hchain & Hlen) & Hmax).
  pose proof (longest_step_lower day_step (1, 1) (adjacent a)) as Hone.
  fold (longest_scan day_step a) in Hone. cbn [fst] in Hone.
  split; [done|]. split.
  - destruct r as [|d r'] eqn:Hr; [simpl in Hlen; lia|]. exists d.
    intros j Hj. eapply block_elem_of; [done|].
    rewrite (chain_day_seqZ _ d Hchain eq_refl). apply elem_of_seqZ. lia.
  - intros d m Hdays. destruct (decide (m ≤ 0)); [lia|].
    assert (block (seqZ d (Z.of_nat (Z.to_nat m))) a) as Hb.
    { apply asc_block_of_days; [done|lia|]. intros j Hj. apply Hdays. lia. }
    specialize (Hmax _ Hb (chain_seqZ _ _)). rewrite length_seqZ in Hmax. lia.
Qed.

(** The daily longest streak of a non-empty completion list is the maximum
    of the scan of its dates, oldest first. *)
Lemma get_longest_streak_daily_asc habit completions :
  schedule habit = "daily" → completions ≠ [] →
  ∃ a, StronglySorted (λ x y : Z, x < y) a ∧ a ≠ [] ∧
       (∀ d, d ∈ a ↔ d ∈ completion_dates completions) ∧
       get_longest_streak_for_habit habit completions
       = Ok (longest_scan day_step a).1.
Proof.
  intros Hdaily Hne.
  destruct (dates_desc_exists completions) as [u Hu].
  assert (u ≠ []) as Hune.
  { intros ->. destruct completions as [|c l]; [done|].
    destruct Hu as [_ Hu]. specialize (Hu (dt_date c)).
    rewrite elem_of_nil in Hu. apply Hu. left. }
  exists (reverse u). split; [|split; [|split]].
  - destruct Hu as [Hs _]. apply StronglySorted_reverse in Hs.
    eapply StronglySorted_weaken; [|done]. done.
  - intros Hnil. apply (f_equal length) in Hnil.
    rewrite length_reverse in Hnil. by destruct u.
  - intros d. rewrite elem_of_reverse. apply Hu.
  - by apply get_longest_streak_daily.
Qed.

(** X11. For a daily habit with at least one completion the longest streak
    is the largest number of consecutive calendar days that all have a
    completion: such a run of days exists, and no run is longer. *)
Theorem daily_longest_consecutive_days habit completions :
  schedule habit = "daily" → completions ≠ [] →
  ∃ v, get_longest_streak_for_habit habit completions = Ok v ∧ 1 ≤ v ∧
       (∃ d, ∀ j, 0 ≤ j < v → d + j ∈ completion_dates completions) ∧
       (∀ d m, (∀ j, 0 ≤ j < m → d + j ∈ completion_dates completions) →
               m ≤ v).
Proof.
  intros Hdaily Hne.
  destruct (get_longest_streak_daily_asc _ _ Hdaily Hne)
    as (a & Hasc & Hane & Hel & ->).
  destruct (longest_scan_day_runs a Hasc Hane) as (Hone & [d Hrun] & Hmax).
  eexists. split; [done|]. split; [done|]. split.
  - exists d. intros j Hj. by apply Hel, Hrun.
  - intros d' m Hdays. apply (Hmax d'). intros j Hj. by apply Hel, Hdays.
Qed.

Lemma daily_longest_consecutive_days_witness :
  let habit := mkHabit "Read" "" "daily" (Datetime 90 0) in
  let completions :=
    [Datetime 100 0; Datetime 99 0; Datetime 96 0; Datetime 95 0;
     Datetime 94 0; Datetime 95 7] in
  schedule habit = "daily" ∧ completions ≠ [] ∧
  ∃ v, get_longest_streak_for_habit habit completions = Ok v ∧ 1 ≤ v ∧
       (∃ d, ∀ j, 0 ≤ j < v → d + j ∈ completion_dates completions) ∧
       (∀ d m, (∀ j, 0 ≤ j < m → d + j ∈ completion_dates completions) →
               m ≤ v).
Proof.
  intros habit completions.
  assert (schedule habit = "daily") as Hdaily by reflexivity.
  assert (completions ≠ []) as Hne by discriminate.
  split; [exact Hdaily|]. split; [exact Hne|].
  exact (daily_longest_consecutive_days habit completions Hdaily Hne).
Defined.

(** The first date of the calendar date set is the most recent completion
    date. *)
Lemma dates_desc_head completions u newest :
  dates_desc completions u →
  newest ∈ completion_dates completions →
  (∀ d, d ∈ completion_dates completions → d ≤ newest) →
  ∃ rest, u = newest :: rest.
Proof.
  intros [Hs Hel] Hin Hmax. apply Hel in Hin.
  destruct u as [|h rest]; [by apply elem_of_nil in Hin|].
  exists rest. f_equal.
  assert (h ≤ newest) by (apply Hmax, Hel; left).
  apply elem_of_cons in Hin as [->|Hin]; [done|].
  apply StronglySorted_inv in Hs as [_ Hh].
  rewrite Forall_forall in Hh. specialize (Hh _ Hin). lia.
Qed.

(** Along a leading run of one-day steps the dates count down from the
    first one. *)
Lemma leading_run_days newest rest k i :
  leading_run day_step (newest :: rest) k → (i ≤ k)%nat →
  (newest :: rest) !! i = Some (newest - Z.of_nat i).
Proof.
  intros (Hlen & Hrun & _). induction i as [|i IH]; intros Hi.
  { simpl. f_equal. lia. }
  specialize (IH ltac:(lia)).
  destruct (lookup_lt_is_Some_2 (newest :: rest) (S i)) as [b Hb]; [lia|].
  specialize (Hrun i _ b ltac:(lia) IH Hb). unfold day_step in Hrun.
  rewrite Hb. f_equal. lia.
Qed.

(** X12. For a daily habit whose most recent completion date is today or
    yesterday, the current streak is the number of consecutive calendar
    days, counted back from the most recent completion date, that all have
    a completion: it stops at the first day without one. *)
Theorem daily_current_consecutive_days today habit completions newest :
  schedule habit = "daily" →
  newest ∈ completion_dates completions →
  (∀ d, d ∈ completion_dates completions → d ≤ newest) →
  today - 1 ≤ newest →
  ∃ v, get_current_streak_for_habit today habit completions = Ok v ∧
       1 ≤ v ∧
       (∀ j, 0 ≤ j < v → newest - j ∈ completion_dates completions) ∧
       newest - v ∉ completion_dates completions.
Proof.
  intros Hdaily Hin Hmax Hactive.
  destruct (dates_desc_exists completions) as [u Hu].
  destruct (dates_desc_head _ _ _ Hu Hin Hmax) as [rest ->].
  unfold get_current_streak_for_habit. rewrite Hdaily.
  rewrite (calculate_streak_daily _ _ _ _ Hu), decide_False by lia.
  destruct (run_from_leading_run day_step (newest :: rest) 1)
    as (k & -> & Hrun); [done|].
  pose proof Hrun as (Hlen & _ & Hstop).
  destruct Hu as [Hs Hel].
  eexists. split; [done|]. split; [lia|]. split.
  - intros j Hj. apply Hel.
    apply (list_elem_of_lookup_2 _ (Z.to_nat j)).
    rewrite (leading_run_days _ _ k) by (done || lia). f_equal. lia.
  - intros Hlast. apply Hel in Hlast.
    apply list_elem_of_lookup in Hlast as [m Hm].
    pose proof (leading_run_days _ _ k k Hrun ltac:(lia)) as Hk.
    assert (k < m)%nat as Hkm.
    { destruct (decide (k < m)%nat); [done|]. exfalso.
      destruct (decide (m = k)) as [->|]; [rewrite Hk in Hm; simplify_eq; lia|].
      pose proof (StronglySorted_lookup_lt _ _ m k _ _ Hs ltac:(lia) Hm Hk).
      simpl in *. lia. }
    destruct (lookup_lt_is_Some_2 (newest :: rest) (S k)) as [b Hb].
    { apply lookup_lt_Some in Hm. lia. }
    pose proof (StronglySorted_lookup_lt _ _ k (S k) _ _ Hs ltac:(lia) Hk Hb)
      as Hlt. simpl in Hlt.
    assert (newest - (1 + Z.of_nat k) ≤ b) as Hge.
    { destruct (decide (m = S k)) as [->|]; [rewrite Hb in Hm; simplify_eq; lia|].
      pose proof (StronglySorted_lookup_lt _ _ (S k) m _ _ Hs ltac:(lia) Hb Hm)
        as Hlt'. simpl in Hlt'. lia. }
    apply (Hstop _ b Hk Hb). unfold day_step. lia.
Qed.

Lemma daily_current_consecutive_days_witness :
  let habit := mkHabit "Read" "" "daily" (Datetime 90 0) in
  let completions :=
    [Datetime 99 0; Datetime 98 0; Datetime 97 0; Datetime 95 0;
     Datetime 98 7] in
  schedule habit = "daily" ∧
  99 ∈ completion_dates completions ∧
  (∀ d, d ∈ completion_dates completions → d ≤ 99) ∧
  100 - 1 ≤ 99 ∧
  ∃ v, get_current_streak_for_habit 100 habit completions = Ok v ∧
       1 ≤ v ∧
       (∀ j, 0 ≤ j < v → 99 - j ∈ completion_dates completions) ∧
       99 - v ∉ completion_dates completions.
Proof.
  intros habit completions.
  assert (schedule habit = "daily") as Hdaily by reflexivity.
  assert (99 ∈ completion_dates completions) as Hin by left.
  assert (∀ d, d ∈ completion_dates completions → d ≤ 99) as Hmax.
  { intros d. change (d ∈ [99; 98; 97; 95; 98] → d ≤ 99).
    rewrite !elem_of_cons, elem_of_nil. lia. }
  assert (100 - 1 ≤ 99) as Hactive by lia.
  split; [exact Hdaily|]. split; [exact Hin|]. split; [exact Hmax|].
  split; [exact Hactive|].
  exact (daily_current_consecutive_days 100 habit completions 99 Hdaily Hin
           Hmax Hactive).
Defined.

(* ===================================================================== *)
(** * Longest streak, weekly cadence *)
(* ===================================================================== *)

#[local] Instance bucket_le_trans : Transitive (flip bucket_ge).
Proof. intros p q r Hpq Hqr. unfold flip in *. by etrans. Qed.
#[local] Instance bucket_le_antisym : AntiSymm (=) (flip bucket_ge).
Proof. intros p q Hpq Hqp. unfold flip in *. by apply (anti_symm bucket_ge). Qed.

(** The code's [week_list] after [sort()] is the list of the texts of the
    buckets, oldest first. *)
Lemma week_list_asc completions u b :
  Forall (λ c, valid_date (dt_date c)) completions →
  dates_desc completions u →
  buckets_desc completions b →
  sort String.leb (keys (group_by_week (reverse u)))
  = bucket_key <$> reverse b.
Proof.
  intros Hvalid [_ Hu] [Hsorted Hb].
  assert (∀ d, d ∈ reverse u → valid_date d) as Hvalid_u.
  { intros d Hd. rewrite elem_of_reverse in Hd. apply Hu in Hd.
    unfold completion_dates in Hd.
    apply list_elem_of_fmap in Hd as (c & -> & Hc).
    rewrite Forall_forall in Hvalid. by apply Hvalid. }
  destruct (keys_as_buckets (reverse u) (keys (group_by_week (reverse u))))
    as (l & Hkeys & Hl).
  { intros k. by rewrite elem_of_keys_group_by_week. }
  assert (∀ p, p ∈ l → valid_bucket p) as Hvalid_l.
  { intros p Hp. destruct (Hl p Hp) as (d & Hd & ->).
    by apply bucket_valid, Hvalid_u. }
  assert (∀ p, p ∈ b → valid_bucket p) as Hvalid_b.
  { intros p Hp. apply Hb in Hp as (d & Hd & ->).
    apply bucket_valid, Hvalid_u. rewrite elem_of_reverse. by apply Hu. }
  rewrite Hkeys.
  rewrite (sort_fmap bucket_key (λ x y, bucket_geb y x))
    by (intros x y Hx Hy; apply leb_bucket_key; auto).
  f_equal. apply (sort_unique _ (flip bucket_ge)).
  - intros x y. unfold bucket_geb, flip, bucket_ge.
    by rewrite bool_decide_eq_true.
  - intros x y. unfold bucket_geb.
    rewrite bool_decide_eq_false, bool_decide_eq_true. lia.
  - apply StronglySorted_reverse.
    eapply StronglySorted_weaken; [|done].
    intros x y. unfold bucket_newer, bucket_ge. lia.
  - rewrite reverse_Permutation. apply NoDup_Permutation.
    + apply (NoDup_fmap_1 bucket_key). rewrite <- Hkeys. apply keys_NoDup.
    + by apply (StronglySorted_NoDup bucket_newer).
    + intros p. split.
      * intros Hp. apply Hb. destruct (Hl p Hp) as (d & Hd & ->).
        exists d. split; [|done]. apply Hu. by rewrite elem_of_reverse in Hd.
      * intros Hp. pose proof (Hvalid_b p Hp) as Hvp.
        apply Hb in Hp as (d & Hd & ->).
        assert (strftime_Y_W d ∈ keys (group_by_week (reverse u))) as Hk.
        { apply elem_of_keys_group_by_week. exists d. split; [|done].
          rewrite elem_of_reverse. by apply Hu. }
        rewrite Hkeys in Hk. apply list_elem_of_fmap in Hk as (p' & Hkey & Hp').
        rewrite strftime_bucket_key in Hkey.
        apply bucket_key_inj in Hkey as ->; auto.
Qed.

(** The indexed loop of the weekly longest streak is the scan over the
    buckets. *)
Lemma weekly_longest_loop_scan pre x l longest current :
  Forall valid_bucket (x :: l) →
  weekly_longest_loop (bucket_key <$> pre ++ x :: l)
    (seq (S (length pre)) (length l)) longest current
  = Ok (foldl (longest_step week_step) (longest, current)
          (adjacent (x :: l))).1.
Proof.
  revert pre x longest current.
  induction l as [|y l IH]; intros pre x longest current Hvalid; [done|].
  apply Forall_cons in Hvalid as [Hx Hvalid].
  pose proof Hvalid as [Hy _]%Forall_cons.
  cbn [length seq weekly_longest_loop].
  rewrite fmap_app, !fmap_cons.
  rewrite <- (length_fmap bucket_key pre).
  replace (S (length (bucket_key <$> pre)) - 1)%nat
    with (length (bucket_key <$> pre)) by lia.
  rewrite getitem_middle. cbn [mbind result_bind].
  rewrite unpack_bucket_key. cbn [mbind result_bind].
  replace (S (length (bucket_key <$> pre)))
    with (length (bucket_key <$> pre) + 1)%nat at 1 by lia.
  rewrite getitem_middle_next. cbn [mbind result_bind].
  rewrite unpack_bucket_key. cbn [mbind result_bind].
  rewrite adjacent_cons. cbn [foldl].
  specialize (IH (pre ++ [x]) y).
  rewrite <- app_assoc, length_app in IH. simpl in IH.
  replace (length pre + 1)%nat with (S (length pre)) in IH by lia.
  rewrite fmap_app, !fmap_cons in IH. rewrite length_fmap.
  unfold longest_step at 2. cbn [fst snd].
  destruct (decide (zfill 4 x.1 = zfill 4 y.1)) as [Hyear|Hyear].
  - rewrite !int_week by done. cbn [mbind result_bind].
    apply year_text_eq in Hyear; [|done..].
    destruct (decide (y.2 - x.2 = 1)) as [Hweek|Hweek].
    + rewrite (decide_True (P := week_step y x)) by (by split).
      by apply IH.
    + rewrite (decide_False (P := week_step y x)) by (by intros [_ ?]).
      by apply IH.
  - rewrite (decide_False (P := week_step y x)); [by apply IH|].
    intros [Heq _]. apply Hyear. by apply year_text_eq.
Qed.

Lemma buckets_desc_length completions u b :
  dates_desc completions u → buckets_desc completions b →
  (length b ≤ length u)%nat.
Proof.
  intros [_ Hu] [Hs Hb]. rewrite <- (length_fmap bucket u).
  apply submseteq_length, NoDup_submseteq.
  - by apply (StronglySorted_NoDup bucket_newer).
  - intros p (d & Hd & ->)%Hb. apply list_elem_of_fmap. exists d.
    split; [done|]. by apply Hu.
Qed.

(** The weekly branch of the longest streak, in terms of the buckets. *)
Lemma get_longest_streak_weekly habit completions b :
  schedule habit ≠ "daily" →
  Forall (λ c, valid_date (dt_date c)) completions →
  completions ≠ [] →
  buckets_desc completions b →
  get_longest_streak_for_habit habit completions
  = Ok (longest_scan week_step (reverse b)).1.
Proof.
  intros Hweekly Hvalid Hne Hb.
  destruct (dates_desc_exists completions) as [u Hu].
  pose proof (buckets_desc_nonempty _ _ Hne Hb) as Hbne.
  pose proof (buckets_desc_length _ _ _ Hu Hb) as Hlen.
  assert (Forall valid_bucket (reverse b)) as Hvb.
  { apply Forall_forall. intros p Hp. rewrite elem_of_reverse in Hp.
    destruct Hb as [_ Hb]. apply Hb in Hp as (d & Hd & ->).
    apply bucket_valid. unfold completion_dates in Hd.
    apply list_elem_of_fmap in Hd as (c & -> & Hc).
    rewrite Forall_forall in Hvalid. by apply Hvalid. }
  assert (∀ x, reverse b = [x] →
               (longest_scan week_step (reverse b)).1 = 1) as Hsingle
    by (by intros x ->).
  unfold get_longest_streak_for_habit.
  rewrite decide_False by (by destruct completions).
  rewrite (unique_dates_asc _ _ Hu).
  destruct (decide (length (reverse u) = 1%nat)) as [Hu1|Hu1].
  { rewrite length_reverse in Hu1. f_equal. symmetry.
    destruct (reverse b) as [|x [|y l]] eqn:Hrev.
    - apply (f_equal length) in Hrev. rewrite length_reverse in Hrev.
      by destruct b.
    - by apply (Hsingle x).
    - apply (f_equal length) in Hrev. rewrite length_reverse in Hrev.
      simpl in Hrev. lia. }
  rewrite decide_False by done.
  rewrite (week_list_asc _ _ _ Hvalid Hu Hb). rewrite length_fmap.
  destruct (reverse b) as [|x l] eqn:Hrev.
  { apply (f_equal length) in Hrev. rewrite length_reverse in Hrev.
    by destruct b. }
  destruct (decide (length (x :: l) = 1%nat)) as [Hb1|Hb1].
  { destruct l; [|done]. by rewrite (Hsingle x). }
  replace (length (x :: l) - 1)%nat with (length l) by (simpl; lia).
  by apply (weekly_longest_loop_scan [] x l 1 1).
Qed.

(** X13. For either cadence, on every day and for every completion list of
    valid dates, the longest streak is at least the current streak. *)
Theorem longest_ge_current today habit completions :
  Forall (λ c, valid_date (dt_date c)) completions →
  ∃ current longest,
    get_current_streak_for_habit today habit completions = Ok current ∧
    get_longest_streak_for_habit habit completions = Ok longest ∧
    current ≤ longest.
Proof.
  intros Hvalid.
  destruct completions as [|c0 l0] eqn:Hcomp.
  { exists 0, 0. done. }
  rewrite <- Hcomp in *.
  assert (completions ≠ []) as Hne by (by rewrite Hcomp).
  clear Hcomp.
  destruct (dates_desc_exists completions) as [u Hu].
  assert (u ≠ []) as Hune.
  { intros ->. destruct completions as [|c l]; [done|].
    destruct Hu as [_ Hu]. specialize (Hu (dt_date c)).
    rewrite elem_of_nil in Hu. apply Hu. left. }
  destruct u as [|newest rest]; [done|].
  unfold get_current_streak_for_habit.
  destruct (decide (schedule habit = "daily")) as [Hdaily|Hweekly].
  - rewrite Hdaily, (calculate_streak_daily _ _ _ _ Hu).
    rewrite (get_longest_streak_daily _ _ _ Hdaily Hune Hu).
    assert (reverse (newest :: rest) ≠ []) as Hrne.
    { intros Hnil. apply (f_equal length) in Hnil.
      by rewrite length_reverse in Hnil. }
    pose proof (longest_scan_ge_current day_step _ Hrne) as Hge.
    rewrite reverse_involutive in Hge.
    pose proof (run_from_lower day_step (newest :: rest) 1) as Hlow.
    destruct (decide (newest < today - 1)); eexists _, _;
      (split; [done|split; [done|lia]]).
  - destruct (buckets_desc_exists completions) as [b Hb].
    rewrite (calculate_streak_weekly _ _ _ _ _ _ Hweekly Hvalid Hu Hb).
    rewrite (get_longest_streak_weekly _ _ _ Hweekly Hvalid Hne Hb).
    pose proof (buckets_desc_nonempty _ _ Hne Hb) as Hbne.
    assert (reverse b ≠ []) as Hrne.
    { intros Hnil. apply (f_equal length) in Hnil.
      rewrite length_reverse in Hnil. by destruct b. }
    pose proof (longest_scan_ge_current week_step _ Hrne) as Hge.
    rewrite reverse_involutive in Hge.
    pose proof (run_from_lower week_step b 1) as Hlow.
    destruct (decide (today - newest > 7)); eexists _, _;
      (split; [done|split; [done|lia]]).
Qed.

Lemma longest_ge_current_witness :
  let habit := mkHabit "Review" "" "weekly" (Datetime 738000 0) in
  let completions :=
    [Datetime 738522 0; Datetime 738529 0; Datetime 738543 0] in
  Forall (λ c, valid_date (dt_date c)) completions ∧
  ∃ current longest,
    get_current_streak_for_habit 738545 habit completions = Ok current ∧
    get_longest_streak_for_habit habit completions = Ok longest ∧
    current ≤ longest.
Proof.
  intros habit completions.
  assert (Forall (λ c, valid_date (dt_date c)) completions) as Hvalid
    by compute_done.
  split; [exact Hvalid|].
  exact (longest_ge_current 738545 habit completions Hvalid).
Defined.

(** X14. For a weekly habit with at least one completion, all on valid
    dates, the longest streak is the length of the longest block of
    adjacent week buckets, oldest first, in which every bucket is in the
    same year as the one before it and exactly one week later. *)
Theorem weekly_longest_blocks habit completions b :
  schedule habit ≠ "daily" →
  Forall (λ c, valid_date (dt_date c)) completions →
  completions ≠ [] →
  buckets_desc completions b →
  ∃ v, get_longest_streak_for_habit habit completions = Ok v ∧
       (∃ r, block r (reverse b) ∧ chain week_step r ∧
             Z.of_nat (length r) = v) ∧
       (∀ r, block r (reverse b) → chain week_step r →
             Z.of_nat (length r) ≤ v).
Proof.
  intros Hweekly Hvalid Hne Hb.
  rewrite (get_longest_streak_weekly _ _ _ Hweekly Hvalid Hne Hb).
  pose proof (buckets_desc_nonempty _ _ Hne Hb) as Hbne.
  assert (reverse b ≠ []) as Hrne.
  { intros Hnil. apply (f_equal length) in Hnil.
    rewrite length_reverse in Hnil. by destruct b. }
  destruct (longest_scan_blocks week_step (reverse b) Hrne)
    as (_ & _ & Hex & Hmax).
  eexists. split; [done|]. by split.
Qed.

Lemma weekly_longest_blocks_witness :
  let habit := mkHabit "Review" "" "weekly" (Datetime 738000 0) in
  let completions :=
    [Datetime 738522 0; Datetime 738529 0; Datetime 738530 0;
     Datetime 738543 0] in
  let b := [(2023, 4); (2023, 2); (2023, 1)] in
  schedule habit ≠ "daily" ∧
  Forall (λ c, valid_date (dt_date c)) completions ∧
  completions ≠ [] ∧
  buckets_desc completions b ∧
  ∃ v, get_longest_streak_for_habit habit completions = Ok v ∧
       (∃ r, block r (reverse b) ∧ chain week_step r ∧
             Z.of_nat (length r) = v) ∧
       (∀ r, block r (reverse b) → chain week_step r →
             Z.of_nat (length r) ≤ v).
Proof.
  intros habit completions b.
  assert (schedule habit ≠ "daily") as Hweekly by discriminate.
  assert (Forall (λ c, valid_date (dt_date c)) completions) as Hvalid
    by compute_done.
  assert (completions ≠ []) as Hne by discriminate.
  assert (buckets_desc completions b) as Hb
    by (apply buckets_desc_check; compute_done).
  split; [exact Hweekly|]. split; [exact Hvalid|]. split; [exact Hne|].
  split; [exact Hb|].
  exact (weekly_longest_blocks habit completions b Hweekly Hvalid Hne Hb).
Defined.

Lemma buckets_desc_same_buckets completions1 completions2 b :
  (∀ p, p ∈ bucket <$> completion_dates completions1
        ↔ p ∈ bucket <$> completion_dates completions2) →
  buckets_desc completions1 b → buckets_desc completions2 b.
Proof.
  intros Hsame [Hs Hb]. split; [done|]. intros p. rewrite Hb.
  specialize (Hsame p). rewrite !list_elem_of_fmap in Hsame.
  split; intros (d & Hd & ->).
  - destruct (proj1 Hsame) as (d' & -> & Hd'); eauto.
  - destruct (proj2 Hsame) as (d' & -> & Hd'); eauto.
Qed.

(** X15. For a weekly habit, one more completion in a calendar week that
    already has one, dated no later than the latest completion, changes
    neither the current nor the longest streak (all dates valid). *)
Theorem weekly_same_week_idempotent today habit completions c latest :
  schedule habit ≠ "daily" →
  Forall (λ c, valid_date (dt_date c)) (completions ++ [c]) →
  bucket (dt_date c) ∈ bucket <$> completion_dates completions →
  latest ∈ completion_dates completions →
  dt_date c ≤ latest →
  get_current_streak_for_habit today habit (completions ++ [c])
  = get_current_streak_for_habit today habit completions ∧
  get_longest_streak_for_habit habit (completions ++ [c])
  = get_longest_streak_for_habit habit completions.
Proof.
  intros Hweekly Hvalid Hbucket Hlatest Hle.
  pose proof Hvalid as [Hvalid0 _]%Forall_app.
  assert (completions ≠ []) as Hne.
  { intros ->. by apply elem_of_nil in Hlatest. }
  assert (completions ++ [c] ≠ []) as Hne' by (by destruct completions).
  destruct (buckets_desc_exists completions) as [b Hb].
  assert (buckets_desc (completions ++ [c]) b) as Hb'.
  { eapply buckets_desc_same_buckets; [|done]. intros p.
    unfold completion_dates. rewrite !fmap_app, elem_of_app. simpl.
    rewrite list_elem_of_singleton. split; [by left|].
    intros [?| ->]; done. }
  split.
  - destruct (dates_desc_exists completions) as [u Hu].
    destruct (dates_desc_exists (completions ++ [c])) as [u' Hu'].
    assert (∃ newest rest, u = newest :: rest) as (newest & rest & ->).
    { destruct u as [|x r]; [|by eauto]. destruct Hu as [_ Hu].
      apply Hu in Hlatest. by apply elem_of_nil in Hlatest. }
    assert (∀ d, d ∈ completion_dates completions → d ≤ newest) as Hmax.
    { intros d Hd. destruct Hu as [Hs Hu]. apply Hu in Hd.
      apply elem_of_cons in Hd as [->|Hd]; [done|].
      apply StronglySorted_inv in Hs as [_ Hall].
      rewrite Forall_forall in Hall. specialize (Hall _ Hd). lia. }
    destruct (dates_desc_head (completions ++ [c]) u' newest Hu')
      as [rest' ->].
    { unfold completion_dates. rewrite fmap_app, elem_of_app. left.
      destruct Hu as [_ Hu]. apply Hu. left. }
    { intros d. unfold completion_dates.
      rewrite fmap_app, elem_of_app. simpl. rewrite list_elem_of_singleton.
      intros [Hd| ->]; [by apply Hmax|].
      specialize (Hmax _ Hlatest). lia. }
    unfold get_current_streak_for_habit.
    rewrite (calculate_streak_weekly _ _ _ _ _ _ Hweekly Hvalid Hu' Hb').
    by rewrite (calculate_streak_weekly _ _ _ _ _ _ Hweekly Hvalid0 Hu Hb).
  - rewrite (get_longest_streak_weekly _ _ _ Hweekly Hvalid Hne' Hb').
    by rewrite (get_longest_streak_weekly _ _ _ Hweekly Hvalid0 Hne Hb).
Qed.

Lemma weekly_same_week_idempotent_witness :
  let habit := mkHabit "Review" "" "weekly" (Datetime 738000 0) in
  let completions := [Datetime 738543 0; Datetime 738536 0] in
  let c := Datetime 738538 0 in
  schedule habit ≠ "daily" ∧
  Forall (λ c, valid_date (dt_date c)) (completions ++ [c]) ∧
  bucket (dt_date c) ∈ bucket <$> completion_dates completions ∧
  738543 ∈ completion_dates completions ∧
  dt_date c ≤ 738543 ∧
  get_current_streak_for_habit 738545 habit (completions ++ [c])
  = get_current_streak_for_habit 738545 habit completions ∧
  get_longest_streak_for_habit habit (completions ++ [c])
  = get_longest_streak_for_habit habit completions.
Proof.
  intros habit completions c.
  assert (schedule habit ≠ "daily") as Hweekly by discriminate.
  assert (Forall (λ c, valid_date (dt_date c)) (completions ++ [c]))
    as Hvalid by compute_done.
  assert (bucket (dt_date c) ∈ bucket <$> completion_dates completions)
    as Hbucket by compute_done.
  assert (738543 ∈ completion_dates completions) as Hlatest by left.
  assert (dt_date c ≤ 738543) as Hle by (unfold c; simpl; lia).
  split; [exact Hweekly|]. split; [exact Hvalid|]. split; [exact Hbucket|].
  split; [exact Hlatest|]. split; [exact Hle|].
  exact (weekly_same_week_idempotent 738545 habit completions c 738543
           Hweekly Hvalid Hbucket Hlatest Hle).
Defined.

(* ===================================================================== *)
(** * Recording one more completion, daily cadence *)
(* ===================================================================== *)

(** X16. For a daily habit, one more completion never lowers the longest
    streak. *)
Theorem daily_longest_monotone habit completions c :
  schedule habit = "daily" →
  ∃ v v',
    get_longest_streak_for_habit habit completions = Ok v ∧
    get_longest_streak_for_habit habit (completions ++ [c]) = Ok v' ∧
    v ≤ v'.
Proof.
  intros Hdaily.
  assert (completions ++ [c] ≠ []) as Hne' by (by destruct completions).
  destruct (get_longest_streak_daily_asc _ _ Hdaily Hne')
    as (a' & Hasc' & Hane' & Hel' & ->).
  destruct (longest_scan_day_runs a' Hasc' Hane') as (Hone' & _ & Hmax').
  destruct completions as [|c0 l0] eqn:Hcomp.
  { exists 0. eexists. split; [done|]. split; [done|]. lia. }
  rewrite <- Hcomp in *.
  assert (completions ≠ []) as Hne by (by rewrite Hcomp).
  clear Hcomp.
  destruct (get_longest_streak_daily_asc _ _ Hdaily Hne)
    as (a & Hasc & Hane & Hel & ->).
  destruct (longest_scan_day_runs a Hasc Hane) as (_ & [d Hrun] & _).
  eexists _, _. split; [done|]. split; [done|].
  apply (Hmax' d). intros j Hj. apply Hel'.
  unfold completion_dates. rewrite fmap_app, elem_of_app. left.
  by apply Hel, Hrun.
Qed.

Lemma daily_longest_monotone_witness :
  let habit := mkHabit "Read" "" "daily" (Datetime 90 0) in
  let completions := [Datetime 100 0; Datetime 98 0] in
  let c := Datetime 99 0 in
  schedule habit = "daily" ∧
  ∃ v v',
    get_longest_streak_for_habit habit completions = Ok v ∧
    get_longest_streak_for_habit habit (completions ++ [c]) = Ok v' ∧
    v ≤ v'.
Proof.
  intros habit completions c.
  assert (schedule habit = "daily") as Hdaily by reflexivity.
  split; [exact Hdaily|].
  exact (daily_longest_monotone habit completions c Hdaily).
Defined.

(** X17. For a daily habit without a completion dated today or later, the
    first completion of today raises the current streak by exactly one: an
    alive streak grows, a lapsed or empty one starts again at 1. *)
Theorem daily_completion_today today habit completions c :
  schedule habit = "daily" →
  dt_date c = today →
  (∀ d, d ∈ completion_dates completions → d < today) →
  ∃ v,
    get_current_streak_for_habit today habit completions = Ok v ∧
    get_current_streak_for_habit today habit (completions ++ [c])
    = Ok (v + 1).
Proof.
  intros Hdaily Hc Hbefore. unfold get_current_streak_for_habit.
  rewrite Hdaily.
  destruct (dates_desc_exists completions) as [u Hu].
  assert (dates_desc (completions ++ [c]) (today :: u)) as Hu'.
  { destruct Hu as [Hs Hel]. split.
    - constructor; [done|]. apply Forall_forall. intros d Hd.
      by apply Hbefore, Hel.
    - intros d. unfold completion_dates in *.
      rewrite fmap_app, elem_of_app, elem_of_cons, Hel. simpl.
      rewrite list_elem_of_singleton, Hc. tauto. }
  rewrite (calculate_streak_daily _ _ _ _ Hu'), decide_False by lia.
  destruct u as [|newest rest].
  { destruct completions as [|c0 l0].
    - exists 0. done.
    - destruct Hu as [_ Hu]. specialize (Hu (dt_date c0)).
      rewrite elem_of_nil in Hu. exfalso. apply Hu. left. }
  rewrite (calculate_streak_daily _ _ _ _ Hu).
  assert (newest < today) as Hlt.
  { apply Hbefore. destruct Hu as [_ Hu]. apply Hu. left. }
  rewrite run_from_cons.
  destruct (decide (newest < today - 1)).
  - exists 0. split; [done|].
    rewrite (decide_False (P := day_step today newest))
      by (unfold day_step; lia).
    done.
  - eexists. split; [done|].
    rewrite (decide_True (P := day_step today newest))
      by (unfold day_step; lia).
    by rewrite run_from_shift.
Qed.

Lemma daily_completion_today_witness :
  let habit := mkHabit "Read" "" "daily" (Datetime 90 0) in
  let completions := [Datetime 99 0; Datetime 98 0; Datetime 96 0] in
  let c := Datetime 100 43200000000 in
  schedule habit = "daily" ∧
  dt_date c = 100 ∧
  (∀ d, d ∈ completion_dates completions → d < 100) ∧
  ∃ v,
    get_current_streak_for_habit 100 habit completions = Ok v ∧
    get_current_streak_for_habit 100 habit (completions ++ [c])
    = Ok (v + 1).
Proof.
  intros habit completions c.
  assert (schedule habit = "daily") as Hdaily by reflexivity.
  assert (dt_date c = 100) as Hc by reflexivity.
  assert (∀ d, d ∈ completion_dates completions → d < 100) as Hbefore.
  { intros d. change (d ∈ [99; 98; 96] → d < 100).
    rewrite !elem_of_cons, elem_of_nil. lia. }
  split; [exact Hdaily|]. split; [exact Hc|]. split; [exact Hbefore|].
  exact (daily_completion_today 100 habit completions c Hdaily Hc Hbefore).
Defined.

(* ===================================================================== *)
(** * Recording one more completion, adherence *)
(* ===================================================================== *)

Lemma Forall2_fmap_same {A B C} (P : B → C → Prop) (f : A → B) (g : A → C) l :
  (∀ x, x ∈ l → P (f x) (g x)) → Forall2 P (f <$> l) (g <$> l).
Proof.
  induction l as [|x l IH]; intros HP; simpl; constructor.
  - apply HP. left.
  - apply IH. intros y Hy. apply HP. by right.
Qed.

(** X18. Recording one more completion for a habit name never raises the
    missed count of any habit in the report and lowers it by at most one:
    the rows before and after, taken in the order of the habit list, have
    the same names and missed counts that differ by 0 or 1. *)
Theorem find_struggling_one_more_completion today habits all_completions
    ps pe habit_name completions c :
  ∃ rows rows',
    find_struggling_habits today habits
      (<[habit_name := completions]> all_completions) ps pe ≡ₚ rows ∧
    find_struggling_habits today habits
      (<[habit_name := completions ++ [c]]> all_completions) ps pe ≡ₚ rows' ∧
    Forall2 (λ row row', row'.1 = row.1 ∧ row.2 - 1 ≤ row'.2 ≤ row.2)
      rows rows'.
Proof.
  rewrite !find_struggling_habits_rows.
  set (ws := (period_window today ps pe).1).
  set (we := (period_window today ps pe).2).
  eexists _, _. split; [apply sort_Permutation|].
  split; [apply sort_Permutation|].
  apply Forall2_fmap_same. intros h _. unfold row_of. cbn [fst snd].
  split; [done|]. unfold completions_of.
  destruct (decide (habit_name = name h)) as [->|Hne].
  - rewrite !lookup_insert_eq. cbn [default from_option id]. unfold actual.
    rewrite filter_app, length_app, filter_cons, filter_nil.
    destruct (decide (in_window ws we c)); simpl; lia.
  - rewrite !lookup_insert_ne by done. lia.
Qed.
